(** * aligator/gar/lqr-problem.hpp: knots and problems of a constrained LQ problem

    A shallow embedding of [LqrKnotTpl] and [LqrProblemTpl] and of the free
    functions of the header, followed by the properties established about
    them.  The header is a template over [Scalar]; the embedding is a
    development over a type [Scalar] with the operations the header uses
    ([ScalarOps]), instantiated at IEEE binary64 numbers for the concrete
    scenarios. *)

From Stdlib Require Import ZArith Lia String Ascii DecimalString Floats.
From Stdlib Require DecimalFacts DecimalNat.
From stdpp Require Import base option list.

Set Default Proof Using "Type".

(** ** Machine integers

    [uint] is a 32-bit unsigned integer and [int] a 32-bit signed one; values
    are carried in [Z] and every conversion writes its wrap-around out. *)

Definition UINT_MAX : Z := 2 ^ 32 - 1.
Definition INT_MAX : Z := 2 ^ 31 - 1.

(** Conversion to [uint]: reduction modulo [2^32]. *)
Definition to_uint (z : Z) : Z := (z mod 2 ^ 32)%Z.

(** Conversion to [int]: the two's complement representative. *)
Definition to_int (z : Z) : Z := ((z + 2 ^ 31) mod 2 ^ 32 - 2 ^ 31)%Z.

(** ** Outcomes

    A call either returns, or leaves the language's defined behaviour (an
    out-of-range [operator[]], a failed assertion), or, in the model only,
    uses up the iteration budget handed to a loop. *)

Inductive outcome (A : Type) : Type :=
| Ret (a : A)
| Undefined
| OutOfFuel.

Arguments Ret {A} a.
Arguments Undefined {A}.
Arguments OutOfFuel {A}.

#[global] Instance outcome_ret : MRet outcome := fun _ a => Ret a.

#[global] Instance outcome_bind : MBind outcome := fun _ _ k m =>
  match m with
  | Ret a => k a
  | Undefined => Undefined
  | OutOfFuel => OutOfFuel
  end.

(** [v[i]] on a [std::vector], for an unsigned index [i]. *)
Definition vector_at {A : Type} (v : list A) (i : Z) : outcome A :=
  match v !! Z.to_nat i with
  | Some a => Ret a
  | None => Undefined
  end.

(** ** The scalar type

    The operations of the template parameter [Scalar] that the header and the
    contracts of its members rely on. [s_close prec a b] is the fuzzy
    comparison of two scalars at precision [prec]; [s_epsilon] is
    [std::numeric_limits<Scalar>::epsilon()]. *)

Class ScalarOps (Scalar : Type) : Type := {
  s_zero : Scalar;
  s_two : Scalar;
  s_add : Scalar -> Scalar -> Scalar;
  s_mul : Scalar -> Scalar -> Scalar;
  s_close : Scalar -> Scalar -> Scalar -> bool;
  s_epsilon : Scalar
}.

(** [context::Scalar] is [double]: IEEE binary64, with the comparison
    [|a - b| <= min(|a|, |b|) * prec] that Eigen uses on scalars and the
    machine epsilon [2^-52]. *)
Definition double_close (prec a b : float) : bool :=
  let m := if PrimFloat.ltb (PrimFloat.abs a) (PrimFloat.abs b)
           then PrimFloat.abs a else PrimFloat.abs b in
  PrimFloat.leb (PrimFloat.abs (PrimFloat.sub a b)) (PrimFloat.mul m prec).

#[global] Instance double_ops : ScalarOps float := {
  s_zero := 0%float;
  s_two := 2%float;
  s_add := PrimFloat.add;
  s_mul := PrimFloat.mul;
  s_close := double_close;
  s_epsilon := 0x1p-52%float
}.

(** Pointwise test of two coefficient sequences of the same length. *)
Fixpoint all2 {A : Type} (p : A -> A -> bool) (l1 l2 : list A) : bool :=
  match l1, l2 with
  | [], [] => true
  | x :: l1', y :: l2' => p x y && all2 p l1' l2'
  | _, _ => false
  end.

(** ** Managed buffers *)

Module ManagedMatrix.
Section WithScalar.
Context {Scalar : Type} {ops : ScalarOps Scalar}.

(** Modelled from the spec: [ManagedMatrix] (aligator/memory/managed-matrix.hpp
    is not part of the sources). An owning buffer of [rows * cols] scalars,
    stored column by column as Eigen does; a vector is a matrix with one
    column. *)
Record t : Type := mk {
  rows : nat;
  cols : nat;
  coeffs : list Scalar
}.

(** The storage holds exactly [rows * cols] coefficients. *)
Definition wf (m : t) : Prop := length (coeffs m) = cols m * rows m.

(** Coefficient [(i, j)], when it is in range. *)
Definition coeff (m : t) (i j : nat) : option Scalar :=
  if (i <? rows m) && (j <? cols m) then coeffs m !! (j * rows m + i) else None.

(** Modelled from the spec: construction with an explicit shape, zero
    initialised. *)
Definition zeros (r c : nat) : t := mk r c (replicate (c * r) s_zero).

(** Modelled from the spec: construction from an allocator alone gives an
    empty buffer. *)
Definition empty_mat : t := mk 0 0 [].
Definition empty_vec : t := mk 0 1 [].

Definition same_shape (a b : t) : bool :=
  (rows a =? rows b) && (cols a =? cols b).

(** Modelled from the spec: [isApprox] compares the values elementwise within
    the tolerance and requires equal shapes; unequal shapes are a hard
    failure, not a [false]. *)
Definition isApprox (a b : t) (prec : Scalar) : outcome bool :=
  if same_shape a b then Ret (all2 (s_close prec) (coeffs a) (coeffs b))
  else Undefined.

(** The coefficients of a buffer of shape [r * c] whose entry [(i, j)] is
    [g i j], in storage order. *)
Definition tabulate (r c : nat) (g : nat -> nat -> Scalar) : list Scalar :=
  flat_map (fun j => map (fun i => g i j) (seq 0 r)) (seq 0 c).

(** Modelled from the spec: a deep copy allocates storage of the same shape
    and copies every value into it. *)
Definition copy (m : t) : t :=
  mk (rows m) (cols m)
     (tabulate (rows m) (cols m)
        (fun i j => default s_zero (coeffs m !! (j * rows m + i)))).

(** Modelled from the spec: growth to shape [r * c]. The storage is
    reallocated; the entries the old shape had keep their values and the
    added ones are zero. *)
Definition grown (m : t) (r c : nat) : t :=
  mk r c
     (tabulate r c
        (fun i j => if (i <? rows m) && (j <? cols m)
                    then default s_zero (coeffs m !! (j * rows m + i))
                    else s_zero)).
End WithScalar.
Arguments t Scalar : clear implicits.
End ManagedMatrix.

(** ** Text *)

Definition nl : string := String (ascii_of_nat 10) EmptyString.

(** [fmt::format] of an unsigned integer with [{:d}]. *)
Definition fmt_d (n : nat) : string := NilZero.string_of_uint (Nat.to_uint n).

(** ** Output streams *)

Module ostream.

(** A [std::ostream], as far as the insertion of character sequences goes: the
    characters written so far, whether the stream is in good state
    ([good()]), the field width ([width()]), the fill character ([fill()])
    and whether [adjustfield] is [left]. The stream buffer takes every
    character it is handed and [exceptions()] is the empty mask it is by
    default, so that an insertion into a good stream succeeds and none
    throws. *)
Record t : Type := mk {
  text : string;
  good : bool;
  width : nat;
  fill : ascii;
  adjust_left : bool
}.

Fixpoint fill_chars (n : nat) (c : ascii) : string :=
  match n with
  | O => EmptyString
  | S n' => String c (fill_chars n' c)
  end.

(** A character sequence padded to the field width: the fill characters go
    after it when [adjustfield] is [left], before it otherwise. *)
Definition padded (os : t) (s : string) : string :=
  let pad := fill_chars (width os - String.length s) (fill os) in
  if adjust_left os then (s ++ pad)%string else (pad ++ s)%string.

(** [os << s] for a character sequence ([const char*], [std::string]), a
    formatted output function: on a stream that is not good nothing is
    inserted; otherwise the sequence goes out padded to the field width and
    the width is reset to [0]. *)
Definition insert (os : t) (s : string) : t :=
  if good os
  then mk (text os ++ padded os s) true 0 (fill os) (adjust_left os)
  else os.

(** [os << obj] for an object whose inserter writes the text [s] through
    insertions of its own (the formatted matrix of Eigen). [operator<<] of
    the knot reaches it with a field width of [0] only. *)
Definition insert_object (os : t) (s : string) : t :=
  if good os
  then mk (text os ++ s) true 0 (fill os) (adjust_left os)
  else os.

End ostream.

(** ** One stage of the problem *)

Module LqrKnotTpl.
Section WithScalar.
Context {Scalar : Type} {ops : ScalarOps Scalar}.

#[local] Abbreviation MMat := (ManagedMatrix.t Scalar).
#[local] Abbreviation MVec := (ManagedMatrix.t Scalar).

(** [struct LqrKnotTpl] (lines 32-56). [m_allocator] is left out: no value
    depends on it. The aggregates [view_t] and [const_view_t] have the same
    members, their blocks being maps onto the knot's storage; only values are
    modelled, so a view is a value of this record too. *)
Record t : Type := mk {
  nx : nat;
  nu : nat;
  nc : nat;
  nx2 : nat;
  nth : nat;
  Q : MMat;  S : MMat;  R : MMat;
  q : MVec;  r : MVec;
  A : MMat;  B : MMat;  E : MMat;
  f : MVec;
  C : MMat;  D : MMat;
  d : MVec;
  Gth : MMat;
  Gx : MMat;
  Gu : MMat;
  Gv : MMat;
  gamma : MVec
}.

(** [to_const_view] (lines 119-148). *)
Definition to_const_view (k : t) : t :=
  mk (nx k) (nu k) (nc k) (nx2 k) (nth k)
     (Q k) (S k) (R k) (q k) (r k)
     (A k) (B k) (E k) (f k)
     (C k) (D k) (d k)
     (Gth k) (Gx k) (Gu k) (Gv k) (gamma k).

(** The blocks, in declaration order. *)
Definition block_fields : list (t -> MMat) :=
  [Q; S; R; q; r; A; B; E; f; C; D; d; Gth; Gx; Gu; Gv; gamma].

(** The blocks that carry the cost, the dynamics and the constraints. *)
Definition core_fields : list (t -> MMat) :=
  [Q; S; R; q; r; A; B; E; f; C; D; d].

(** The shape the data model gives each block, in declaration order. *)
Definition block_shapes (k : t) : list (nat * nat) :=
  [ (nx k, nx k); (nx k, nu k); (nu k, nu k); (nx k, 1); (nu k, 1);
    (nx2 k, nx k); (nx2 k, nu k); (nx2 k, nx2 k); (nx2 k, 1);
    (nc k, nx k); (nc k, nu k); (nc k, 1);
    (nth k, nth k); (nth k, nx k); (nth k, nu k); (nc k, nth k); (nth k, 1) ].

Definition has_shape (m : MMat) (s : nat * nat) : Prop :=
  ManagedMatrix.rows m = s.1 /\ ManagedMatrix.cols m = s.2 /\ ManagedMatrix.wf m.

(** The invariant of the data model: every block has the shape its
    dimensions give it. *)
Definition wf (k : t) : Prop :=
  Forall2 has_shape (map (fun blk => blk k) block_fields) (block_shapes k).

(** Modelled from the spec: the constructor
    [LqrKnotTpl(nx, nu, nc, nx2, nth, alloc)] (declared at lines 155-156,
    defined outside the header) zero-initialises every block at the shape of
    the data model. *)
Definition make (nx nu nc nx2 nth : nat) : t :=
  mk nx nu nc nx2 nth
     (ManagedMatrix.zeros nx nx) (ManagedMatrix.zeros nx nu)
     (ManagedMatrix.zeros nu nu)
     (ManagedMatrix.zeros nx 1) (ManagedMatrix.zeros nu 1)
     (ManagedMatrix.zeros nx2 nx) (ManagedMatrix.zeros nx2 nu)
     (ManagedMatrix.zeros nx2 nx2) (ManagedMatrix.zeros nx2 1)
     (ManagedMatrix.zeros nc nx) (ManagedMatrix.zeros nc nu)
     (ManagedMatrix.zeros nc 1)
     (ManagedMatrix.zeros nth nth) (ManagedMatrix.zeros nth nx)
     (ManagedMatrix.zeros nth nu) (ManagedMatrix.zeros nc nth)
     (ManagedMatrix.zeros nth 1).

(** The delegating constructors (lines 158-164). *)
Definition make4 (nx nu nc nx2 : nat) : t := make nx nu nc nx2 0.
Definition make3 (nx nu nc : nat) : t := make nx nu nc nx 0.

(** Modelled from the spec: the copy constructor (declared at lines 166-167)
    keeps the dimensions and deep-copies every block. *)
Definition copy (other : t) : t :=
  mk (nx other) (nu other) (nc other) (nx2 other) (nth other)
     (ManagedMatrix.copy (Q other)) (ManagedMatrix.copy (S other))
     (ManagedMatrix.copy (R other))
     (ManagedMatrix.copy (q other)) (ManagedMatrix.copy (r other))
     (ManagedMatrix.copy (A other)) (ManagedMatrix.copy (B other))
     (ManagedMatrix.copy (E other)) (ManagedMatrix.copy (f other))
     (ManagedMatrix.copy (C other)) (ManagedMatrix.copy (D other))
     (ManagedMatrix.copy (d other))
     (ManagedMatrix.copy (Gth other)) (ManagedMatrix.copy (Gx other))
     (ManagedMatrix.copy (Gu other)) (ManagedMatrix.copy (Gv other))
     (ManagedMatrix.copy (gamma other)).

(** Modelled from the spec: [addParameterization(nth)] (declared at lines
    181-182, "reallocates entire buffer for contigousness"). The whole knot
    moves to new storage: the cost, dynamics and constraint blocks are copied
    and the parameter blocks grow to the shapes [nth] gives them. *)
Definition addParameterization (k : t) (nth' : nat) : t :=
  mk (nx k) (nu k) (nc k) (nx2 k) nth'
     (ManagedMatrix.copy (Q k)) (ManagedMatrix.copy (S k))
     (ManagedMatrix.copy (R k))
     (ManagedMatrix.copy (q k)) (ManagedMatrix.copy (r k))
     (ManagedMatrix.copy (A k)) (ManagedMatrix.copy (B k))
     (ManagedMatrix.copy (E k)) (ManagedMatrix.copy (f k))
     (ManagedMatrix.copy (C k)) (ManagedMatrix.copy (D k))
     (ManagedMatrix.copy (d k))
     (ManagedMatrix.grown (Gth k) nth' nth')
     (ManagedMatrix.grown (Gx k) nth' (nx k))
     (ManagedMatrix.grown (Gu k) nth' (nu k))
     (ManagedMatrix.grown (Gv k) (nc k) nth')
     (ManagedMatrix.grown (gamma k) nth' 1).

(** [lqrKnotsSameDim] (lines 291-296), a free function of the namespace. *)
Definition lqrKnotsSameDim (lhs rhs : t) : bool :=
  (nx lhs =? nx rhs) && (nu lhs =? nu rhs) && (nc lhs =? nc rhs) &&
  (nx2 lhs =? nx2 rhs) && (nth lhs =? nth rhs).

(** Comparison of a list of block pairs, left to right, stopping at the
    first pair that is not close. *)
Fixpoint blocks_approx (prec : Scalar) (l1 l2 : list MMat) : outcome bool :=
  match l1, l2 with
  | a :: l1', b :: l2' =>
      c ← ManagedMatrix.isApprox a b prec;
      if c : bool then blocks_approx prec l1' l2' else Ret false
  | _, _ => Ret true
  end.

(** Modelled from the spec: [isApprox(other, prec)] (declared at lines
    184-185) is true iff all dimensions match and every corresponding block
    pair is close within [prec]. *)
Definition isApprox (k other : t) (prec : Scalar) : outcome bool :=
  if lqrKnotsSameDim k other
  then blocks_approx prec (map (fun blk => blk k) block_fields)
                          (map (fun blk => blk other) block_fields)
  else Ret false.

(** The default argument of [isApprox] (line 185). *)
Definition isApprox_default (k other : t) : outcome bool :=
  isApprox k other s_epsilon.

(** [operator==] (lines 187-189). *)
Definition operator_eq (lhs rhs : t) : outcome bool :=
  isApprox_default lhs rhs.

(** [operator<<] on an output stream (lines 298-332). [NDEBUG] is the macro
    that release builds define. [eigenPrintWithPreamble] (aligator/math.hpp,
    not part of the sources) is taken as a parameter: the text that the
    object it returns writes when it is inserted. *)
Definition operator_shl (NDEBUG : bool)
    (eigenPrintWithPreamble : MMat -> string -> string)
    (oss : ostream.t) (self_ : t) : ostream.t :=
  let self := to_const_view self_ in
  let oss := ostream.insert oss "LqrKnot {" in
  let oss :=
    ostream.insert
      (ostream.insert
         (ostream.insert oss (nl ++ "  nx:  " ++ fmt_d (nx self))%string)
         (nl ++ "  nu:  " ++ fmt_d (nu self))%string)
      (nl ++ "  nc:  " ++ fmt_d (nc self))%string in
  let oss := if 0 <? nth self
             then ostream.insert oss (nl ++ "  nth: " ++ fmt_d (nth self))%string
             else oss in
  let oss :=
    if NDEBUG then oss
    else
      let put := fun (os : ostream.t) (blk : MMat) (preamble : string) =>
        ostream.insert_object os (eigenPrintWithPreamble blk preamble) in
      let oss := put oss (Q self) (nl ++ "  Q: ")%string in
      let oss := put oss (S self) (nl ++ "  S: ")%string in
      let oss := put oss (R self) (nl ++ "  R: ")%string in
      let oss := put oss (q self) (nl ++ "  q: ")%string in
      let oss := put oss (r self) (nl ++ "  r: ")%string in
      let oss := put oss (A self) (nl ++ "  A: ")%string in
      let oss := put oss (B self) (nl ++ "  B: ")%string in
      let oss := put oss (E self) (nl ++ "  E: ")%string in
      let oss := put oss (f self) (nl ++ "  f: ")%string in
      let oss := put oss (C self) (nl ++ "  C: ")%string in
      let oss := put oss (D self) (nl ++ "  D: ")%string in
      let oss := put oss (d self) (nl ++ "  d: ")%string in
      if 0 <? nth self
      then
        let oss := put oss (Gth self) (nl ++ "  Gth: ")%string in
        let oss := put oss (Gx self) (nl ++ "  Gx: ")%string in
        let oss := put oss (Gu self) (nl ++ "  Gu: ")%string in
        put oss (gamma self) (nl ++ "  gamma: ")%string
      else oss in
  ostream.insert oss (nl ++ "}")%string.
End WithScalar.
Arguments t Scalar : clear implicits.
End LqrKnotTpl.

(** ** Dense products

    The products the objective is made of, on coefficient sequences. A sum
    starts at zero and adds its terms from left to right. *)

Section Products.
Context {Scalar : Type} {ops : ScalarOps Scalar}.

Definition sum_terms (l : list Scalar) : Scalar := fold_left s_add l s_zero.

(** [a . b] *)
Definition dot (a b : list Scalar) : Scalar := sum_terms (zip_with s_mul a b).

(** Row [i] of [M], as stored column by column. *)
Definition mat_row (M : ManagedMatrix.t Scalar) (i : nat) : list Scalar :=
  map (fun j => default s_zero
                  (ManagedMatrix.coeffs M !! (j * ManagedMatrix.rows M + i)))
      (seq 0 (ManagedMatrix.cols M)).

(** [M * v] *)
Definition mat_vec (M : ManagedMatrix.t Scalar) (v : list Scalar) : list Scalar :=
  map (fun i => dot (mat_row M i) v) (seq 0 (ManagedMatrix.rows M)).

(** [x^T M y] *)
Definition bilinear (x : list Scalar) (M : ManagedMatrix.t Scalar)
    (y : list Scalar) : Scalar :=
  dot x (mat_vec M y).

(** Running total of a loop body that may fail, over the indices [ts]. *)
Fixpoint accumulate (body : nat -> outcome Scalar) (ts : list nat)
    (acc : Scalar) : outcome Scalar :=
  match ts with
  | [] => Ret acc
  | i :: ts' => c ← body i; accumulate body ts' (s_add acc c)
  end.
End Products.

(** ** The whole horizon *)

Module LqrProblemTpl.
Section WithScalar.
Context {Scalar : Type} {ops : ScalarOps Scalar}.

#[local] Abbreviation KnotType := (LqrKnotTpl.t Scalar).
#[local] Abbreviation MMat := (ManagedMatrix.t Scalar).
#[local] Abbreviation MVec := (ManagedMatrix.t Scalar).

(** [struct LqrProblemTpl] (lines 198-208); [stages] is a
    [std::pmr::vector<KnotType>]. *)
Record t : Type := mk {
  G0 : MMat;
  g0 : MVec;
  stages : list KnotType
}.

(** [stages.size()], a [size_t]. *)
Definition stages_size (p : t) : Z := Z.of_nat (length (stages p)).

(** [stages.empty()] *)
Definition stages_empty (p : t) : bool :=
  match stages p with
  | [] => true
  | _ :: _ => false
  end.

(** [horizon] (line 210): [(int)stages.size() - 1]. The conversion to [int]
    and the subtraction in [int] are written with their wrap-around. *)
Definition horizon (p : t) : Z := to_int (to_int (stages_size p) - 1).

(** [nc0] (line 212): [(uint)g0.rows()]. *)
Definition nc0 (p : t) : Z := to_uint (Z.of_nat (ManagedMatrix.rows (g0 p))).

(** The constructor from an allocator (lines 214-219): the empty problem. *)
Definition make_empty : t :=
  mk ManagedMatrix.empty_mat ManagedMatrix.empty_vec [].

(** Modelled from the spec: the constructor from a knot sequence and the row
    count [nc0] (declared at line 222, defined outside the header) copies the
    knots and shapes the initial-condition blocks [G0 (nc0 x nx0)] and
    [g0 (nc0)], [nx0] being the state dimension of the first knot. *)
Definition make (knots : list KnotType) (nc0 : nat) : t :=
  let nx0 := match knots with
             | k :: _ => LqrKnotTpl.nx k
             | [] => 0
             end in
  mk (ManagedMatrix.zeros nc0 nx0) (ManagedMatrix.zeros nc0 1)
     (map LqrKnotTpl.copy knots).

(** The copy constructor (lines 227-232): delegates to [make], then assigns
    [G0] and [g0] from [other]. *)
Definition copy (other : t) : t :=
  let this := make (stages other) (Z.to_nat (nc0 other)) in
  mk (ManagedMatrix.copy (G0 other)) (ManagedMatrix.copy (g0 other))
     (stages this).

(** The loop of [addParameterization] (lines 253-255):
    [for (uint i = 0; i <= (uint)horizon(); i++)]. *)
Fixpoint addParameterization_loop (fuel : nat) (i bound : Z) (nth : nat)
    (st : list KnotType) : outcome (list KnotType) :=
  if (i <=? bound)%Z then
    match fuel with
    | O => OutOfFuel
    | S fuel' =>
        k ← vector_at st i;
        addParameterization_loop fuel' (to_uint (i + 1)) bound nth
          (<[Z.to_nat i := LqrKnotTpl.addParameterization k nth]> st)
    end
  else Ret st.

(** [addParameterization] (lines 250-256). *)
Definition addParameterization (fuel : nat) (p : t) (nth : nat) : outcome t :=
  if stages_empty p then Ret p
  else
    st ← addParameterization_loop fuel 0 (to_uint (horizon p)) nth (stages p);
    Ret (mk (G0 p) (g0 p) st).

(** [isParameterized] (lines 258-260); [&&] reads [stages[0]] only when the
    sequence is not empty. *)
Definition isParameterized (p : t) : outcome bool :=
  if negb (stages_empty p)
  then k ← vector_at (stages p) 0; Ret (0 <? LqrKnotTpl.nth k)
  else Ret false.

(** [isInitialized] (line 262). *)
Definition isInitialized (p : t) : bool := negb (stages_empty p).

(** [ntheta] (line 264). *)
Definition ntheta (p : t) : outcome nat :=
  k ← vector_at (stages p) 0; Ret (LqrKnotTpl.nth k).

(** The loop of [isApprox] (lines 270-273):
    [for (uint i = 0; i < uint(horizon()); i++)]. *)
Fixpoint isApprox_loop (fuel : nat) (i bound : Z)
    (st ost : list KnotType) : outcome bool :=
  if (i <? bound)%Z then
    match fuel with
    | O => OutOfFuel
    | S fuel' =>
        a ← vector_at st i;
        b ← vector_at ost i;
        c ← LqrKnotTpl.isApprox_default a b;
        if negb c then Ret false
        else isApprox_loop fuel' (to_uint (i + 1)) bound st ost
    end
  else Ret true.

(** [isApprox] (lines 266-275); [||] stops at its first true operand. *)
Definition isApprox (fuel : nat) (p other : t) : outcome bool :=
  if negb (horizon p =? horizon other)%Z then Ret false
  else
    c ← ManagedMatrix.isApprox (G0 p) (G0 other) s_epsilon;
    if negb c then Ret false
    else
      c' ← ManagedMatrix.isApprox (g0 p) (g0 other) s_epsilon;
      if negb c' then Ret false
      else isApprox_loop fuel 0 (to_uint (horizon p)) (stages p) (stages other).

(** Modelled from the spec: the term of a stage in the objective of
    [evaluate], [x^T Q x + 2 x^T S u + u^T R u + 2 q^T x + 2 r^T u], computed
    with dense products. *)
Definition stage_cost (k : KnotType) (x u : list Scalar) : Scalar :=
  s_add (s_add (s_add (s_add
    (bilinear x (LqrKnotTpl.Q k) x)
    (s_mul s_two (bilinear x (LqrKnotTpl.S k) u)))
    (bilinear u (LqrKnotTpl.R k) u))
    (s_mul s_two (dot (ManagedMatrix.coeffs (LqrKnotTpl.q k)) x)))
    (s_mul s_two (dot (ManagedMatrix.coeffs (LqrKnotTpl.r k)) u)).

(** Stage [i] of the trajectory, with the dimension checks of the contract. *)
Definition stage_data (p : t) (xs us : list (list Scalar)) (i : nat)
    : outcome (KnotType * list Scalar * list Scalar) :=
  k ← vector_at (stages p) (Z.of_nat i);
  x ← vector_at xs (Z.of_nat i);
  u ← vector_at us (Z.of_nat i);
  if (length x =? LqrKnotTpl.nx k) && (length u =? LqrKnotTpl.nu k)
  then Ret (k, x, u) else Undefined.

(** Modelled from the spec: [evaluate(xs, us, theta)] (declared at lines
    277-279, defined outside the header). [xs] and [us] must each have length
    [horizon() + 1] and [theta], if present, length [ntheta()]; anything else
    is a contract violation. The term of every stage, the last one included,
    is added to the total in the order of the stages; then, if [theta] is
    supplied, the parameter cross-term of every stage is. The spec does not
    say what the cross-term of a stage is: it is the parameter
    [cross_term]. *)
Definition evaluate
    (cross_term : KnotType -> list Scalar -> list Scalar -> list Scalar -> Scalar)
    (p : t) (xs us : list (list Scalar)) (theta_ : option (list Scalar))
    : outcome Scalar :=
  let n := length (stages p) in
  if negb ((Z.of_nat (length xs) =? horizon p + 1)%Z
           && (Z.of_nat (length us) =? horizon p + 1)%Z)
  then Undefined
  else
    ret ← accumulate
             (fun i => '(k, x, u) ← stage_data p xs us i; Ret (stage_cost k x u))
             (seq 0 n) s_zero;
    match theta_ with
    | None => Ret ret
    | Some th =>
        nth ← ntheta p;
        if negb (length th =? nth) then Undefined
        else
          accumulate
            (fun i => '(k, x, u) ← stage_data p xs us i; Ret (cross_term k th x u))
            (seq 0 n) ret
    end.
End WithScalar.
Arguments t Scalar : clear implicits.
End LqrProblemTpl.

(** ** The scenario of the specification

    A knot with [nx = 2, nu = 1, nc = 0, nx2 = 2, nth = 0] over [double], and
    the problem of three such knots with [nc0 = 0]. *)

Definition scenario_knot : LqrKnotTpl.t float := LqrKnotTpl.make 2 1 0 2 0.

Definition scenario_problem : LqrProblemTpl.t float :=
  LqrProblemTpl.make [scenario_knot; scenario_knot; scenario_knot] 0.

Definition scenario_xs : list (list float) :=
  [[0%float; 0%float]; [0%float; 0%float]; [0%float; 0%float]].

Definition scenario_us : list (list float) :=
  [[0%float]; [0%float]; [0%float]].

(** A one-stage knot whose [Q] is [1] instead of [0]. *)
Definition unit_knot : LqrKnotTpl.t float := LqrKnotTpl.make 1 1 0 1 0.

Definition unit_knot_Q1 : LqrKnotTpl.t float :=
  LqrKnotTpl.mk 1 1 0 1 0
    (ManagedMatrix.mk 1 1 [1%float]) (LqrKnotTpl.S unit_knot)
    (LqrKnotTpl.R unit_knot) (LqrKnotTpl.q unit_knot) (LqrKnotTpl.r unit_knot)
    (LqrKnotTpl.A unit_knot) (LqrKnotTpl.B unit_knot) (LqrKnotTpl.E unit_knot)
    (LqrKnotTpl.f unit_knot) (LqrKnotTpl.C unit_knot) (LqrKnotTpl.D unit_knot)
    (LqrKnotTpl.d unit_knot) (LqrKnotTpl.Gth unit_knot) (LqrKnotTpl.Gx unit_knot)
    (LqrKnotTpl.Gu unit_knot) (LqrKnotTpl.Gv unit_knot)
    (LqrKnotTpl.gamma unit_knot).

(** A parameterized knot ([nth = 1], [nc = 1]) and the same knot with another
    [Gv]. *)
Definition param_knot : LqrKnotTpl.t float := LqrKnotTpl.make 1 1 1 1 1.

Definition param_knot_Gv1 : LqrKnotTpl.t float :=
  LqrKnotTpl.mk 1 1 1 1 1
    (LqrKnotTpl.Q param_knot) (LqrKnotTpl.S param_knot)
    (LqrKnotTpl.R param_knot) (LqrKnotTpl.q param_knot) (LqrKnotTpl.r param_knot)
    (LqrKnotTpl.A param_knot) (LqrKnotTpl.B param_knot) (LqrKnotTpl.E param_knot)
    (LqrKnotTpl.f param_knot) (LqrKnotTpl.C param_knot) (LqrKnotTpl.D param_knot)
    (LqrKnotTpl.d param_knot) (LqrKnotTpl.Gth param_knot) (LqrKnotTpl.Gx param_knot)
    (LqrKnotTpl.Gu param_knot) (ManagedMatrix.mk 1 1 [1%float])
    (LqrKnotTpl.gamma param_knot).

(** ** Properties of the specification, in its own words *)

(** Two buffers of one shape are close when every pair of corresponding
    coefficients is. *)
Definition elementwise_close {Scalar : Type} {ops : ScalarOps Scalar}
    (prec : Scalar) (a b : ManagedMatrix.t Scalar) : Prop :=
  forall i j, i < ManagedMatrix.rows a -> j < ManagedMatrix.cols a ->
    exists x y, ManagedMatrix.coeff a i j = Some x /\
                ManagedMatrix.coeff b i j = Some y /\
                s_close prec x y = true.

(** Two buffers that can be compared: well formed and of one shape. *)
Definition comparable {Scalar : Type} (a b : ManagedMatrix.t Scalar) : Prop :=
  ManagedMatrix.wf a /\ ManagedMatrix.wf b /\
  ManagedMatrix.rows a = ManagedMatrix.rows b /\
  ManagedMatrix.cols a = ManagedMatrix.cols b.

(** The objective as the specification writes it. Entries out of range count
    as zero, and a sum adds its terms in the order of the index, from zero. *)
Definition entry {Scalar : Type} {ops : ScalarOps Scalar}
    (v : list Scalar) (i : nat) : Scalar :=
  default s_zero (v !! i).

Definition mat_entry {Scalar : Type} {ops : ScalarOps Scalar}
    (M : ManagedMatrix.t Scalar) (i j : nat) : Scalar :=
  default s_zero (ManagedMatrix.coeff M i j).

(** [acc + f s + f (s + 1) + ... + f (s + n - 1)] *)
Definition sigma_from {Scalar : Type} {ops : ScalarOps Scalar}
    (acc : Scalar) (s n : nat) (f : nat -> Scalar) : Scalar :=
  fold_left (fun a i => s_add a (f i)) (seq s n) acc.

(** [sum_(i < n) f i] *)
Definition sigma {Scalar : Type} {ops : ScalarOps Scalar}
    (n : nat) (f : nat -> Scalar) : Scalar :=
  sigma_from s_zero 0 n f.

(** [x^T M y = sum_i x_i (sum_j M_ij y_j)] *)
Definition quadratic_form {Scalar : Type} {ops : ScalarOps Scalar}
    (x : list Scalar) (M : ManagedMatrix.t Scalar) (y : list Scalar) : Scalar :=
  sigma (ManagedMatrix.rows M) (fun i =>
    s_mul (entry x i)
          (sigma (ManagedMatrix.cols M) (fun j =>
             s_mul (mat_entry M i j) (entry y j)))).

(** [v^T x = sum_i v_i x_i] for a vector block [v]. *)
Definition linear_form {Scalar : Type} {ops : ScalarOps Scalar}
    (v : ManagedMatrix.t Scalar) (x : list Scalar) : Scalar :=
  sigma (ManagedMatrix.rows v) (fun i => s_mul (mat_entry v i 0) (entry x i)).

(** [x^T Q x + 2 x^T S u + u^T R u + 2 q^T x + 2 r^T u] *)
Definition stage_objective {Scalar : Type} {ops : ScalarOps Scalar}
    (k : LqrKnotTpl.t Scalar) (x u : list Scalar) : Scalar :=
  s_add (s_add (s_add (s_add
    (quadratic_form x (LqrKnotTpl.Q k) x)
    (s_mul s_two (quadratic_form x (LqrKnotTpl.S k) u)))
    (quadratic_form u (LqrKnotTpl.R k) u))
    (s_mul s_two (linear_form (LqrKnotTpl.q k) x)))
    (s_mul s_two (linear_form (LqrKnotTpl.r k) u)).

(** [acc] plus the terms [h k x u] of the stages, in order. *)
Fixpoint sum_stages {Scalar : Type} {ops : ScalarOps Scalar}
    (h : LqrKnotTpl.t Scalar -> list Scalar -> list Scalar -> Scalar)
    (acc : Scalar) (stages : list (LqrKnotTpl.t Scalar))
    (xs us : list (list Scalar)) : Scalar :=
  match stages, xs, us with
  | k :: stages', x :: xs', u :: us' =>
      sum_stages h (s_add acc (h k x u)) stages' xs' us'
  | _, _, _ => acc
  end.

(** The sum over the stages of
    [x^T Q x + 2 x^T S u + u^T R u + 2 q^T x + 2 r^T u]. *)
Definition objective {Scalar : Type} {ops : ScalarOps Scalar}
    (p : LqrProblemTpl.t Scalar) (xs us : list (list Scalar)) : Scalar :=
  sum_stages stage_objective s_zero (LqrProblemTpl.stages p) xs us.

(** The objective plus, when [theta] is supplied, the parameter cross-terms of
    the stages. *)
Definition objective_with_theta {Scalar : Type} {ops : ScalarOps Scalar}
    (cross_term : LqrKnotTpl.t Scalar -> list Scalar -> list Scalar ->
                  list Scalar -> Scalar)
    (p : LqrProblemTpl.t Scalar) (xs us : list (list Scalar))
    (theta_ : option (list Scalar)) : Scalar :=
  match theta_ with
  | Some th =>
      sum_stages (fun k x u => cross_term k th x u) (objective p xs us)
        (LqrProblemTpl.stages p) xs us
  | None => objective p xs us
  end.

(** The contract of [evaluate]: one state and one control per stage, each of
    the dimension of its stage, and a [theta], if any, of the parameter
    dimension of the first stage. *)
Definition trajectory_fits {Scalar : Type} (p : LqrProblemTpl.t Scalar)
    (xs us : list (list Scalar)) (theta_ : option (list Scalar)) : Prop :=
  length xs = length (LqrProblemTpl.stages p) /\
  length us = length (LqrProblemTpl.stages p) /\
  (forall i k x u,
     LqrProblemTpl.stages p !! i = Some k -> xs !! i = Some x ->
     us !! i = Some u ->
     length x = LqrKnotTpl.nx k /\ length u = LqrKnotTpl.nu k) /\
  (forall th, theta_ = Some th ->
     exists k ks, LqrProblemTpl.stages p = k :: ks /\
                  length th = LqrKnotTpl.nth k).

(** [s] occurs in [out]. *)
Definition occurs (s out : string) : Prop :=
  exists pre post, out = (pre ++ s ++ post)%string.

(** The label [operator<<] gives the section of a block. *)
Definition label (name : string) : string := (nl ++ "  " ++ name ++ ": ")%string.

(** The blocks [operator<<] writes in a debug build whatever the dimensions,
    and those it writes when [nth > 0], with the names it gives them. *)
Definition core_sections {Scalar : Type}
    : list ((LqrKnotTpl.t Scalar -> ManagedMatrix.t Scalar) * string) :=
  [ (LqrKnotTpl.Q, "Q"); (LqrKnotTpl.S, "S"); (LqrKnotTpl.R, "R");
    (LqrKnotTpl.q, "q"); (LqrKnotTpl.r, "r");
    (LqrKnotTpl.A, "A"); (LqrKnotTpl.B, "B"); (LqrKnotTpl.E, "E");
    (LqrKnotTpl.f, "f");
    (LqrKnotTpl.C, "C"); (LqrKnotTpl.D, "D"); (LqrKnotTpl.d, "d") ]%string.

Definition param_sections {Scalar : Type}
    : list ((LqrKnotTpl.t Scalar -> ManagedMatrix.t Scalar) * string) :=
  [ (LqrKnotTpl.Gth, "Gth"); (LqrKnotTpl.Gx, "Gx"); (LqrKnotTpl.Gu, "Gu");
    (LqrKnotTpl.gamma, "gamma") ]%string.

(** The text of one section, of a list of sections in their order, and of the
    lines that report the dimensions. *)
Definition section_text {Scalar : Type}
    (eigenPrintWithPreamble : ManagedMatrix.t Scalar -> string -> string)
    (k : LqrKnotTpl.t Scalar)
    (sec : (LqrKnotTpl.t Scalar -> ManagedMatrix.t Scalar) * string) : string :=
  eigenPrintWithPreamble (sec.1 k) (label sec.2).

Definition sections_text {Scalar : Type}
    (eigenPrintWithPreamble : ManagedMatrix.t Scalar -> string -> string)
    (k : LqrKnotTpl.t Scalar)
    (secs : list ((LqrKnotTpl.t Scalar -> ManagedMatrix.t Scalar) * string))
    : string :=
  fold_right String.append EmptyString
    (map (section_text eigenPrintWithPreamble k) secs).

Definition dimension_lines {Scalar : Type} (k : LqrKnotTpl.t Scalar) : string :=
  (nl ++ "  nx:  " ++ fmt_d (LqrKnotTpl.nx k)
      ++ nl ++ "  nu:  " ++ fmt_d (LqrKnotTpl.nu k)
      ++ nl ++ "  nc:  " ++ fmt_d (LqrKnotTpl.nc k))%string.

Definition nth_text {Scalar : Type} (k : LqrKnotTpl.t Scalar) : string :=
  if 0 <? LqrKnotTpl.nth k
  then (nl ++ "  nth: " ++ fmt_d (LqrKnotTpl.nth k))%string
  else EmptyString.

(** What follows the opening [LqrKnot {] in the text of a knot: the lines of
    the dimensions, the line of [nth] when [nth > 0], in a debug build the
    sections of the twelve cost, dynamics and constraint blocks and, when
    [nth > 0], those of [Gth], [Gx], [Gu] and [gamma], and the closing
    brace on a line of its own. *)
Definition knot_report {Scalar : Type} (NDEBUG : bool)
    (eigenPrintWithPreamble : ManagedMatrix.t Scalar -> string -> string)
    (k : LqrKnotTpl.t Scalar) : string :=
  (dimension_lines k ++ nth_text k
   ++ (if NDEBUG then EmptyString
       else sections_text eigenPrintWithPreamble k core_sections
            ++ (if (0 <? LqrKnotTpl.nth k)%nat
                then sections_text eigenPrintWithPreamble k param_sections
                else EmptyString))
   ++ nl ++ "}")%string.

(** The parameter blocks of a knot. *)
Definition param_fields {Scalar : Type}
    : list (LqrKnotTpl.t Scalar -> ManagedMatrix.t Scalar) :=
  [LqrKnotTpl.Gth; LqrKnotTpl.Gx; LqrKnotTpl.Gu; LqrKnotTpl.Gv; LqrKnotTpl.gamma].

(** ** Further definitions *)

(** All the coefficients a knot holds, block after block, and all those a
    problem holds. *)
Definition knot_coeffs {Scalar : Type} (k : LqrKnotTpl.t Scalar) : list Scalar :=
  flat_map (fun blk => ManagedMatrix.coeffs (blk k)) LqrKnotTpl.block_fields.

Definition problem_coeffs {Scalar : Type} (p : LqrProblemTpl.t Scalar)
    : list Scalar :=
  ManagedMatrix.coeffs (LqrProblemTpl.G0 p)
  ++ ManagedMatrix.coeffs (LqrProblemTpl.g0 p)
  ++ flat_map knot_coeffs (LqrProblemTpl.stages p).

(** The template at an integer scalar: exact arithmetic, the same comparison
    [|a - b| <= min(|a|, |b|) * prec], and an epsilon of [0] as
    [std::numeric_limits] gives for integer types. *)
#[global] Instance int_ops : ScalarOps Z := {
  s_zero := 0%Z;
  s_two := 2%Z;
  s_add := Z.add;
  s_mul := Z.mul;
  s_close := fun prec a b =>
    (Z.abs (a - b) <=? Z.min (Z.abs a) (Z.abs b) * prec)%Z;
  s_epsilon := 0%Z
}.

(** A one-state knot over the integers whose [Q] is [[a]], and the problem of
    that knot followed by a zero knot. *)
Definition int_knot (a : Z) : LqrKnotTpl.t Z :=
  LqrKnotTpl.mk 1 1 0 1 0
    (ManagedMatrix.mk 1 1 [a]) (ManagedMatrix.zeros 1 1)
    (ManagedMatrix.zeros 1 1) (ManagedMatrix.zeros 1 1) (ManagedMatrix.zeros 1 1)
    (ManagedMatrix.zeros 1 1) (ManagedMatrix.zeros 1 1) (ManagedMatrix.zeros 1 1)
    (ManagedMatrix.zeros 1 1) (ManagedMatrix.zeros 0 1) (ManagedMatrix.zeros 0 1)
    (ManagedMatrix.zeros 0 1) (ManagedMatrix.zeros 0 0) (ManagedMatrix.zeros 0 1)
    (ManagedMatrix.zeros 0 1) (ManagedMatrix.zeros 0 0)
    (ManagedMatrix.zeros 0 1).

Definition int_problem (a : Z) : LqrProblemTpl.t Z :=
  LqrProblemTpl.make [int_knot a; int_knot 0] 0.

(** Stage [j] is in range in both sequences and the two knots compare close. *)
Definition stage_pair_close {Scalar : Type} {ops : ScalarOps Scalar}
    (st ost : list (LqrKnotTpl.t Scalar)) (j : nat) : Prop :=
  exists a b, st !! j = Some a /\ ost !! j = Some b /\
              LqrKnotTpl.isApprox_default a b = Ret true.

(** Decimal digits. *)
Definition is_digit (c : ascii) : bool :=
  (48 <=? nat_of_ascii c) && (nat_of_ascii c <=? 57).

Fixpoint all_digits (s : string) : bool :=
  match s with
  | EmptyString => true
  | String c s' => is_digit c && all_digits s'
  end.

(** A stream as it is when nothing has been written to it and no format has
    been set, a stream in good state that holds [s] with a field width of
    [w] pending, and a stream that holds [s] and is not in good state. *)
Definition fresh_stream : ostream.t :=
  ostream.mk EmptyString true 0 (ascii_of_nat 32) false.

Definition stream_with_width (s : string) (w : nat) : ostream.t :=
  ostream.mk s true w (ascii_of_nat 32) false.

Definition failed_stream (s : string) : ostream.t :=
  ostream.mk s false 0 (ascii_of_nat 32) false.

(** The text [operator<<] writes for a knot on a fresh stream. *)
Definition knot_text {Scalar : Type} (NDEBUG : bool)
    (eigenPrintWithPreamble : ManagedMatrix.t Scalar -> string -> string)
    (k : LqrKnotTpl.t Scalar) : string :=
  ostream.text (LqrKnotTpl.operator_shl NDEBUG eigenPrintWithPreamble
                  fresh_stream k).

(** ** Proof steps *)

(** Splits the invariant of a knot into the shape facts of its blocks. *)
Ltac knot_blocks Hwf :=
  unfold LqrKnotTpl.wf in Hwf; simpl in Hwf;
  repeat (apply Forall2_cons_1 in Hwf as [(? & ? & ?) Hwf]); clear Hwf.

(** Goes through the members of a literal list. *)
Ltac each_member Hin :=
  repeat (apply elem_of_cons in Hin as [->|Hin]); [..|by apply elem_of_nil in Hin].

(** * Properties *)

(** ** Conversions *)

Lemma to_int_small (z : Z) : (- 2 ^ 31 <= z <= INT_MAX)%Z -> to_int z = z.
Proof.
  unfold to_int, INT_MAX. intros Hz.
  rewrite Z.mod_small; lia.
Qed.

Lemma to_uint_small (z : Z) : (0 <= z <= UINT_MAX)%Z -> to_uint z = z.
Proof.
  unfold to_uint, UINT_MAX. intros Hz.
  rewrite Z.mod_small; lia.
Qed.

Lemma to_uint_minus_one : to_uint (-1) = UINT_MAX.
Proof. reflexivity. Qed.

Section ProblemFacts.
Context {Scalar : Type} {ops : ScalarOps Scalar}.
Implicit Types (p other : LqrProblemTpl.t Scalar) (k : LqrKnotTpl.t Scalar).

Lemma horizon_fits p :
  (LqrProblemTpl.stages_size p <= INT_MAX)%Z ->
  LqrProblemTpl.horizon p = (LqrProblemTpl.stages_size p - 1)%Z.
Proof.
  intros Hfit. unfold LqrProblemTpl.horizon.
  assert (0 <= LqrProblemTpl.stages_size p)%Z
    by (unfold LqrProblemTpl.stages_size; lia).
  unfold INT_MAX in Hfit.
  rewrite (to_int_small (LqrProblemTpl.stages_size p)) by (unfold INT_MAX; lia).
  apply to_int_small. unfold INT_MAX. lia.
Qed.

Lemma vector_at_nil {A : Type} (i : Z) : vector_at (@nil A) i = Undefined.
Proof. unfold vector_at. by rewrite lookup_nil. Qed.

Lemma vector_at_nat {A : Type} (v : list A) (i : nat) (a : A) :
  v !! i = Some a -> vector_at v (Z.of_nat i) = Ret a.
Proof. intros Hv. unfold vector_at. by rewrite Nat2Z.id, Hv. Qed.

Lemma stages_empty_true p :
  LqrProblemTpl.stages_empty p = true <-> LqrProblemTpl.stages p = [].
Proof. unfold LqrProblemTpl.stages_empty. destruct (LqrProblemTpl.stages p); naive_solver. Qed.

End ProblemFacts.

(** ** [horizon] *)

(** C7. For a problem whose number of stages is representable in [int],
    [horizon()] is the number of stages minus one: [-1] for the empty problem
    and [k - 1] for a problem of [k] stages. *)
Theorem horizon_is_stage_count_minus_one
    {Scalar : Type} (p : LqrProblemTpl.t Scalar) :
  (Z.of_nat (length (LqrProblemTpl.stages p)) <= INT_MAX)%Z ->
  LqrProblemTpl.horizon p = (Z.of_nat (length (LqrProblemTpl.stages p)) - 1)%Z /\
  (LqrProblemTpl.stages p = [] -> LqrProblemTpl.horizon p = (-1)%Z) /\
  (forall k : nat, length (LqrProblemTpl.stages p) = k ->
     LqrProblemTpl.horizon p = (Z.of_nat k - 1)%Z).
Proof.
  intros Hfit.
  pose proof (horizon_fits p Hfit) as Hh.
  unfold LqrProblemTpl.stages_size in Hh.
  split; [exact Hh|]. split.
  - intros Hnil. rewrite Hh, Hnil. reflexivity.
  - intros k <-. exact Hh.
Qed.

Lemma horizon_is_stage_count_minus_one_witness :
  LqrProblemTpl.horizon scenario_problem = 2%Z /\
  LqrProblemTpl.horizon (LqrProblemTpl.make_empty (Scalar := float)) = (-1)%Z.
Proof.
  split.
  - apply (horizon_is_stage_count_minus_one scenario_problem); vm_compute; congruence.
  - apply (horizon_is_stage_count_minus_one LqrProblemTpl.make_empty);
      [vm_compute; congruence | reflexivity].
Defined.

(** ** [isParameterized] and [ntheta] *)

(** C10. On a problem with no stage, [isParameterized()] returns [false], and
    it does so without reading a stage (any read of an empty sequence is out of
    range); [ntheta()] reads [stages[0]] whatever the sequence is, so that it
    is out of range on the empty problem, and it returns, with the [nth] of the
    first stage, exactly when the sequence is not empty. *)
Theorem isParameterized_guards_ntheta_does_not
    {Scalar : Type} (G0 g0 : ManagedMatrix.t Scalar) :
  LqrProblemTpl.isParameterized (LqrProblemTpl.mk G0 g0 []) = Ret false /\
  LqrProblemTpl.ntheta (LqrProblemTpl.mk G0 g0 []) = Undefined /\
  (forall k ks,
     LqrProblemTpl.ntheta (LqrProblemTpl.mk G0 g0 (k :: ks))
       = Ret (LqrKnotTpl.nth k) /\
     LqrProblemTpl.isParameterized (LqrProblemTpl.mk G0 g0 (k :: ks))
       = Ret (0 <? LqrKnotTpl.nth k)) /\
  (forall p : LqrProblemTpl.t Scalar,
     LqrProblemTpl.ntheta p = Undefined <-> LqrProblemTpl.stages p = []).
Proof.
  repeat split.
  - intros Hu. destruct p as [G g [|k ks]]; [reflexivity | discriminate Hu].
  - intros Hnil. destruct p as [G g st]. simpl in Hnil. subst st. reflexivity.
Qed.

(** ** [isApprox] on problems *)

(** C4 (evaluation of the code on the empty problem). The comparison of the
    default-constructed problem with itself passes the tests on the horizon
    ([-1] on both sides), on [G0] and on [g0], then enters the loop, whose
    bound [uint(-1)] is [UINT_MAX], and reads [stages[0]] of an empty
    sequence. *)
Theorem isApprox_empty_problem_reads_out_of_range
    {Scalar : Type} {ops : ScalarOps Scalar} (fuel : nat) :
  LqrProblemTpl.horizon (LqrProblemTpl.make_empty (Scalar := Scalar)) = (-1)%Z /\
  to_uint (LqrProblemTpl.horizon (LqrProblemTpl.make_empty (Scalar := Scalar)))
    = UINT_MAX /\
  LqrProblemTpl.isApprox (S fuel) LqrProblemTpl.make_empty
      (LqrProblemTpl.make_empty (Scalar := Scalar)) = Undefined.
Proof. repeat split. Qed.

(** C1 (evaluation of the code on two one-stage problems). The two problems
    have the same [G0] and [g0] and one stage each; the stages differ in [Q]
    and are not close, yet [isApprox] returns [true]: with [horizon() = 0] the
    loop [i < uint(horizon())] compares no stage, and in general never the
    last one. *)
Theorem isApprox_problem_skips_last_stage (fuel : nat) :
  LqrKnotTpl.isApprox_default unit_knot unit_knot_Q1 = Ret false /\
  LqrProblemTpl.horizon (LqrProblemTpl.make [unit_knot] 0) = 0%Z /\
  LqrProblemTpl.isApprox fuel (LqrProblemTpl.make [unit_knot] 0)
      (LqrProblemTpl.make [unit_knot_Q1] 0) = Ret true.
Proof.
  split; [vm_compute; reflexivity|].
  split; [vm_compute; reflexivity|].
  destruct fuel; vm_compute; reflexivity.
Qed.

(** ** Buffers *)

Section MatrixFacts.
Context {Scalar : Type} {ops : ScalarOps Scalar}.
Implicit Types (m a b : ManagedMatrix.t Scalar) (g : nat -> nat -> Scalar).

Lemma map_is_fmap {A B : Type} (h : A -> B) (l : list A) : map h l = h <$> l.
Proof. reflexivity. Qed.

Lemma index_split (r c idx : nat) :
  idx < c * r -> exists i j, i < r /\ j < c /\ idx = j * r + i.
Proof.
  intros Hidx.
  assert (r <> 0) as Hr by (intros ->; lia).
  exists (idx mod r), (idx / r). split; [|split].
  - by apply Nat.mod_upper_bound.
  - apply Nat.Div0.div_lt_upper_bound. lia.
  - rewrite (Nat.div_mod idx r Hr) at 1. lia.
Qed.

Lemma tabulate_snoc r c g :
  ManagedMatrix.tabulate r (S c) g
  = ManagedMatrix.tabulate r c g ++ map (fun i => g i c) (seq 0 r).
Proof.
  unfold ManagedMatrix.tabulate.
  rewrite seq_S, flat_map_app. simpl. by rewrite app_nil_r.
Qed.

Lemma length_tabulate r c g : length (ManagedMatrix.tabulate r c g) = c * r.
Proof.
  induction c as [|c IH]; [reflexivity|].
  rewrite tabulate_snoc, length_app, IH, length_map, length_seq. lia.
Qed.

Lemma lookup_tabulate r c g i j :
  i < r -> j < c -> ManagedMatrix.tabulate r c g !! (j * r + i) = Some (g i j).
Proof.
  intros Hi. induction c as [|c IH]; intros Hj; [lia|].
  rewrite tabulate_snoc.
  destruct (decide (j = c)) as [->|Hne].
  - rewrite lookup_app_r by (rewrite length_tabulate; lia).
    rewrite length_tabulate.
    replace (c * r + i - c * r) with i by lia.
    rewrite map_is_fmap, list_lookup_fmap, lookup_seq_lt by done.
    reflexivity.
  - rewrite lookup_app_l by (rewrite length_tabulate; nia).
    apply IH. lia.
Qed.

Lemma tabulate_ext r c g g' :
  (forall i j, i < r -> j < c -> g i j = g' i j) ->
  ManagedMatrix.tabulate r c g = ManagedMatrix.tabulate r c g'.
Proof.
  intros Hext. apply list_eq. intros idx.
  destruct (decide (idx < c * r)) as [Hlt|Hge].
  - destruct (index_split r c idx Hlt) as (i & j & Hi & Hj & ->).
    rewrite !lookup_tabulate by done. f_equal. by apply Hext.
  - rewrite !(proj2 (lookup_ge_None _ _)); [done| |]; rewrite length_tabulate; lia.
Qed.

Lemma tabulate_id r c (l : list Scalar) :
  length l = c * r ->
  ManagedMatrix.tabulate r c (fun i j => default s_zero (l !! (j * r + i))) = l.
Proof.
  intros Hlen. apply list_eq. intros idx.
  destruct (decide (idx < c * r)) as [Hlt|Hge].
  - destruct (index_split r c idx Hlt) as (i & j & Hi & Hj & ->).
    rewrite lookup_tabulate by done.
    destruct (lookup_lt_is_Some_2 l (j * r + i)) as [x Hx]; [lia|].
    by rewrite Hx.
  - rewrite !(proj2 (lookup_ge_None _ _)); [done|lia|rewrite length_tabulate; lia].
Qed.

Lemma wf_zeros r c : ManagedMatrix.wf (ManagedMatrix.zeros r c).
Proof. unfold ManagedMatrix.wf. simpl. by rewrite length_replicate. Qed.

Lemma wf_grown m r c : ManagedMatrix.wf (ManagedMatrix.grown m r c).
Proof. unfold ManagedMatrix.wf. simpl. by rewrite length_tabulate. Qed.

Lemma copy_id m : ManagedMatrix.wf m -> ManagedMatrix.copy m = m.
Proof.
  destruct m as [r c l]. unfold ManagedMatrix.wf, ManagedMatrix.copy. simpl.
  intros Hlen. f_equal. by apply tabulate_id.
Qed.

Lemma grown_same_shape m :
  ManagedMatrix.wf m ->
  ManagedMatrix.grown m (ManagedMatrix.rows m) (ManagedMatrix.cols m) = m.
Proof.
  intros Hwf. rewrite <- (copy_id m Hwf) at 4.
  unfold ManagedMatrix.grown, ManagedMatrix.copy. f_equal.
  apply tabulate_ext. intros i j Hi Hj.
  apply Nat.ltb_lt in Hi, Hj. by rewrite Hi, Hj.
Qed.

Lemma coeff_lookup m i j :
  i < ManagedMatrix.rows m -> j < ManagedMatrix.cols m ->
  ManagedMatrix.coeff m i j
  = ManagedMatrix.coeffs m !! (j * ManagedMatrix.rows m + i).
Proof.
  intros Hi Hj. unfold ManagedMatrix.coeff.
  apply Nat.ltb_lt in Hi, Hj. by rewrite Hi, Hj.
Qed.

Lemma coeff_grown m r c i j :
  i < r -> j < c ->
  ManagedMatrix.coeff (ManagedMatrix.grown m r c) i j
  = Some (if (i <? ManagedMatrix.rows m) && (j <? ManagedMatrix.cols m)
          then default s_zero
                 (ManagedMatrix.coeffs m !! (j * ManagedMatrix.rows m + i))
          else s_zero).
Proof.
  intros Hi Hj. rewrite coeff_lookup by done. simpl.
  by rewrite lookup_tabulate.
Qed.

Lemma coeff_grown_old m r c i j :
  ManagedMatrix.wf m -> i < r -> j < c ->
  i < ManagedMatrix.rows m -> j < ManagedMatrix.cols m ->
  ManagedMatrix.coeff (ManagedMatrix.grown m r c) i j = ManagedMatrix.coeff m i j.
Proof.
  intros Hwf Hi Hj Hi' Hj'. rewrite coeff_grown, (coeff_lookup m) by done.
  destruct (lookup_lt_is_Some_2 (ManagedMatrix.coeffs m)
              (j * ManagedMatrix.rows m + i)) as [x Hx].
  { rewrite Hwf. nia. }
  apply Nat.ltb_lt in Hi', Hj'. by rewrite Hi', Hj', Hx.
Qed.

Lemma coeff_grown_new m r c i j :
  i < r -> j < c ->
  ~ (i < ManagedMatrix.rows m /\ j < ManagedMatrix.cols m) ->
  ManagedMatrix.coeff (ManagedMatrix.grown m r c) i j = Some s_zero.
Proof.
  intros Hi Hj Hnew. rewrite coeff_grown by done.
  destruct (i <? ManagedMatrix.rows m) eqn:Ei;
    destruct (j <? ManagedMatrix.cols m) eqn:Ej; try reflexivity.
  apply Nat.ltb_lt in Ei, Ej. tauto.
Qed.

Lemma all2_spec {A : Type} (P : A -> A -> bool) (l1 l2 : list A) :
  all2 P l1 l2 = true <->
  length l1 = length l2 /\
  forall idx x y, l1 !! idx = Some x -> l2 !! idx = Some y -> P x y = true.
Proof.
  revert l2. induction l1 as [|x l1 IH]; intros [|y l2]; simpl.
  - split; [|done]. intros _. split; [done|]. intros idx ? ?. by rewrite lookup_nil.
  - split; [done|]. intros [[=] _].
  - split; [done|]. intros [[=] _].
  - rewrite andb_true_iff, IH. split.
    + intros (Hxy & Hlen & Hall). split; [by rewrite Hlen|].
      intros [|idx] x' y'; simpl; [congruence|]. apply Hall.
    + intros (Hlen & Hall). split; [by apply (Hall 0)|].
      split; [congruence|]. intros idx x' y'. apply (Hall (S idx)).
Qed.

Lemma same_shape_true a b :
  ManagedMatrix.same_shape a b = true <->
  ManagedMatrix.rows a = ManagedMatrix.rows b /\
  ManagedMatrix.cols a = ManagedMatrix.cols b.
Proof.
  unfold ManagedMatrix.same_shape.
  by rewrite andb_true_iff, !Nat.eqb_eq.
Qed.

Lemma all2_elementwise prec a b :
  ManagedMatrix.wf a -> ManagedMatrix.wf b ->
  ManagedMatrix.rows a = ManagedMatrix.rows b ->
  ManagedMatrix.cols a = ManagedMatrix.cols b ->
  all2 (s_close prec) (ManagedMatrix.coeffs a) (ManagedMatrix.coeffs b) = true
  <-> elementwise_close prec a b.
Proof.
  intros Ha Hb Hr Hc. rewrite all2_spec. unfold elementwise_close. split.
  - intros [_ Hall] i j Hi Hj.
    rewrite (coeff_lookup a), (coeff_lookup b) by lia.
    destruct (lookup_lt_is_Some_2 (ManagedMatrix.coeffs a)
                (j * ManagedMatrix.rows a + i)) as [x Hx]; [rewrite Ha; nia|].
    destruct (lookup_lt_is_Some_2 (ManagedMatrix.coeffs b)
                (j * ManagedMatrix.rows b + i)) as [y Hy]; [rewrite Hb; nia|].
    exists x, y. split; [done|]. split; [done|].
    apply (Hall (j * ManagedMatrix.rows a + i)); [done|]. by rewrite Hr.
  - intros Hclose. split; [rewrite Ha, Hb; congruence|].
    intros idx x y Hx Hy.
    assert (idx < ManagedMatrix.cols a * ManagedMatrix.rows a) as Hlt.
    { rewrite <- Ha. eapply lookup_lt_Some, Hx. }
    destruct (index_split _ _ idx Hlt) as (i & j & Hi & Hj & ->).
    destruct (Hclose i j Hi Hj) as (x' & y' & Hx' & Hy' & Hxy).
    rewrite (coeff_lookup a) in Hx' by done.
    rewrite (coeff_lookup b) in Hy' by lia.
    rewrite <- Hr in Hy'. congruence.
Qed.

End MatrixFacts.

(** ** Knots *)

Section KnotFacts.
Context {Scalar : Type} {ops : ScalarOps Scalar}.
Implicit Types (k other : LqrKnotTpl.t Scalar) (a b m : ManagedMatrix.t Scalar).

Lemma has_shape_comparable (l1 l2 : list (ManagedMatrix.t Scalar)) shapes :
  Forall2 LqrKnotTpl.has_shape l1 shapes ->
  Forall2 LqrKnotTpl.has_shape l2 shapes ->
  Forall2 comparable l1 l2.
Proof.
  intros H1. revert l2.
  induction H1 as [|a s l1 shapes (Hr & Hc & Hwf) _ IH]; intros l2 H2.
  - apply Forall2_nil_inv_r in H2 as ->. constructor.
  - destruct l2 as [|b l2]; [inversion H2|].
    apply Forall2_cons_1 in H2 as [(Hr' & Hc' & Hwf') H2].
    constructor; [|by apply IH].
    repeat split; congruence.
Qed.

Lemma isApprox_comparable prec a b :
  comparable a b ->
  ManagedMatrix.isApprox a b prec
  = Ret (all2 (s_close prec) (ManagedMatrix.coeffs a) (ManagedMatrix.coeffs b)).
Proof.
  intros (_ & _ & Hr & Hc). unfold ManagedMatrix.isApprox.
  by rewrite (proj2 (same_shape_true a b)).
Qed.

Lemma blocks_approx_spec prec (l1 l2 : list (ManagedMatrix.t Scalar)) :
  Forall2 comparable l1 l2 ->
  exists c, LqrKnotTpl.blocks_approx prec l1 l2 = Ret c /\
            (c = true <-> Forall2 (elementwise_close prec) l1 l2).
Proof.
  induction 1 as [|a b l1 l2 Hab _ (c & Hc & IH)].
  - exists true. split; [reflexivity|]. split; [constructor|done].
  - simpl. rewrite (isApprox_comparable prec a b Hab). simpl.
    pose proof Hab as (Ha & Hb & Hr & Hcl).
    pose proof (all2_elementwise prec a b Ha Hb Hr Hcl) as Hel.
    destruct (all2 _ _ _) eqn:E.
    + exists c. split; [exact Hc|]. rewrite IH. split.
      * intros Hall. constructor; [by apply Hel|done].
      * intros Hall. by apply Forall2_cons_1 in Hall as [_ ?].
    + exists false. split; [reflexivity|]. split; [done|].
      intros Hall. apply Forall2_cons_1 in Hall as [Hhd _].
      apply Hel in Hhd. discriminate Hhd.
Qed.

Lemma Forall2_fields {X : Type} (P : ManagedMatrix.t Scalar ->
    ManagedMatrix.t Scalar -> Prop) (x y : X)
    (fields : list (X -> ManagedMatrix.t Scalar)) :
  Forall2 P (map (fun blk => blk x) fields) (map (fun blk => blk y) fields)
  <-> forall blk, blk ∈ fields -> P (blk x) (blk y).
Proof.
  induction fields as [|fld fields IH]; simpl.
  - split; [|constructor]. intros _ blk Hin. by apply elem_of_nil in Hin.
  - split.
    + intros Hall. apply Forall2_cons_1 in Hall as [Hhd Htl].
      intros blk Hin. apply elem_of_cons in Hin as [->|Hin]; [done|].
      by apply IH.
    + intros Hall. constructor.
      * apply Hall. by left.
      * apply IH. intros blk Hin. apply Hall. by right.
Qed.

Lemma lqrKnotsSameDim_true k other :
  LqrKnotTpl.lqrKnotsSameDim k other = true <->
  LqrKnotTpl.nx k = LqrKnotTpl.nx other /\
  LqrKnotTpl.nu k = LqrKnotTpl.nu other /\
  LqrKnotTpl.nc k = LqrKnotTpl.nc other /\
  LqrKnotTpl.nx2 k = LqrKnotTpl.nx2 other /\
  LqrKnotTpl.nth k = LqrKnotTpl.nth other.
Proof.
  unfold LqrKnotTpl.lqrKnotsSameDim.
  rewrite !andb_true_iff, !Nat.eqb_eq. tauto.
Qed.

Lemma block_shapes_same k other :
  LqrKnotTpl.lqrKnotsSameDim k other = true ->
  LqrKnotTpl.block_shapes k = LqrKnotTpl.block_shapes other.
Proof.
  intros (H1 & H2 & H3 & H4 & H5)%lqrKnotsSameDim_true.
  unfold LqrKnotTpl.block_shapes. by rewrite H1, H2, H3, H4, H5.
Qed.

Lemma knot_isApprox_true_iff k other prec :
  LqrKnotTpl.wf k -> LqrKnotTpl.wf other ->
  (LqrKnotTpl.isApprox k other prec = Ret true <->
     LqrKnotTpl.lqrKnotsSameDim k other = true /\
     forall blk, blk ∈ LqrKnotTpl.block_fields ->
       elementwise_close prec (blk k) (blk other)) /\
  (LqrKnotTpl.isApprox k other prec = Ret true \/
   LqrKnotTpl.isApprox k other prec = Ret false).
Proof.
  intros Hk Ho. unfold LqrKnotTpl.isApprox.
  destruct (LqrKnotTpl.lqrKnotsSameDim k other) eqn:Hdim.
  - unfold LqrKnotTpl.wf in Hk, Ho.
    rewrite <- (block_shapes_same k other Hdim) in Ho.
    destruct (blocks_approx_spec prec _ _ (has_shape_comparable _ _ _ Hk Ho))
      as (c & -> & Hc).
    rewrite Forall2_fields in Hc. split.
    + split.
      * intros [= ->]. split; [done|]. by apply Hc.
      * intros [_ Hall]. f_equal. by apply Hc.
    + destruct c; auto.
  - split; [|by right]. split; [done|]. by intros [[=] _].
Qed.

Lemma wf_make (nx nu nc nx2 nth : nat) :
  LqrKnotTpl.wf (LqrKnotTpl.make nx nu nc nx2 nth).
Proof.
  unfold LqrKnotTpl.wf. simpl.
  repeat (constructor; [repeat split; apply wf_zeros|]). constructor.
Qed.

Lemma knot_copy_id k : LqrKnotTpl.wf k -> LqrKnotTpl.copy k = k.
Proof.
  intros Hwf. destruct k. knot_blocks Hwf. simpl in *.
  unfold LqrKnotTpl.copy. simpl.
  by rewrite !copy_id.
Qed.

Lemma elementwise_close_zeros (r c : nat) prec :
  s_close prec s_zero s_zero = true ->
  elementwise_close prec (ManagedMatrix.zeros r c) (ManagedMatrix.zeros r c).
Proof.
  intros Hz i j Hi Hj. exists s_zero, s_zero.
  rewrite coeff_lookup by done. simpl in *.
  rewrite lookup_replicate_2 by nia. done.
Qed.

Lemma coeff_grown_cases m r c i j :
  ManagedMatrix.wf m -> i < r -> j < c ->
  ManagedMatrix.coeff (ManagedMatrix.grown m r c) i j
  = if (i <? ManagedMatrix.rows m) && (j <? ManagedMatrix.cols m)
    then ManagedMatrix.coeff m i j else Some s_zero.
Proof.
  intros Hwf Hi Hj.
  destruct (i <? ManagedMatrix.rows m) eqn:Ei;
    destruct (j <? ManagedMatrix.cols m) eqn:Ej; simpl;
    try (apply coeff_grown_new; [done|done|];
         intros [?%Nat.ltb_lt ?%Nat.ltb_lt]; congruence).
  apply Nat.ltb_lt in Ei, Ej. by apply coeff_grown_old.
Qed.

End KnotFacts.

(** C5. For knots that satisfy the invariant of the data model,
    [isApprox(other, prec)] returns a boolean, and it is [true] exactly when
    the five dimensions match and every pair of corresponding blocks is
    elementwise close within [prec]; the tolerance defaults to the machine
    epsilon of the scalar type, and [operator==] is the comparison at that
    default. *)
Theorem isApprox_knot_characterisation
    {Scalar : Type} {ops : ScalarOps Scalar}
    (k other : LqrKnotTpl.t Scalar) (prec : Scalar) :
  LqrKnotTpl.wf k -> LqrKnotTpl.wf other ->
  (LqrKnotTpl.isApprox k other prec = Ret true <->
     (LqrKnotTpl.nx k = LqrKnotTpl.nx other /\
      LqrKnotTpl.nu k = LqrKnotTpl.nu other /\
      LqrKnotTpl.nc k = LqrKnotTpl.nc other /\
      LqrKnotTpl.nx2 k = LqrKnotTpl.nx2 other /\
      LqrKnotTpl.nth k = LqrKnotTpl.nth other) /\
     forall blk, blk ∈ LqrKnotTpl.block_fields ->
       elementwise_close prec (blk k) (blk other)) /\
  (LqrKnotTpl.isApprox k other prec = Ret true \/
   LqrKnotTpl.isApprox k other prec = Ret false) /\
  LqrKnotTpl.isApprox_default k other = LqrKnotTpl.isApprox k other s_epsilon /\
  LqrKnotTpl.operator_eq k other = LqrKnotTpl.isApprox k other s_epsilon.
Proof.
  intros Hk Ho.
  destruct (knot_isApprox_true_iff k other prec Hk Ho) as [Hiff Hbool].
  rewrite <- lqrKnotsSameDim_true.
  split; [exact Hiff|]. split; [exact Hbool|]. split; reflexivity.
Qed.

Lemma wf_unit_knot_Q1 : LqrKnotTpl.wf unit_knot_Q1.
Proof.
  unfold LqrKnotTpl.wf. simpl.
  repeat (constructor; [repeat split; vm_compute; reflexivity|]). constructor.
Qed.

Lemma isApprox_knot_characterisation_witness :
  LqrKnotTpl.wf unit_knot /\ LqrKnotTpl.wf unit_knot_Q1 /\
  (LqrKnotTpl.isApprox unit_knot unit_knot_Q1 s_epsilon = Ret true \/
   LqrKnotTpl.isApprox unit_knot unit_knot_Q1 s_epsilon = Ret false) /\
  LqrKnotTpl.operator_eq unit_knot unit_knot_Q1
  = LqrKnotTpl.isApprox unit_knot unit_knot_Q1 0x1p-52%float.
Proof.
  split; [apply wf_make|]. split; [apply wf_unit_knot_Q1|].
  destruct (isApprox_knot_characterisation unit_knot unit_knot_Q1 s_epsilon
              (wf_make 1 1 0 1 0) wf_unit_knot_Q1) as (_ & Hbool & _ & Heq).
  split; [exact Hbool | exact Heq].
Defined.

(** C6. For every dimension tuple, the knot constructed with it and its copy
    have the same dimensions and the same values in every block, and
    [copy.isApprox(original)] is [true]; the comparison is that of the scalar
    type, which has to find zero close to zero at the default tolerance. *)
Theorem copy_of_constructed_knot_isApprox
    {Scalar : Type} {ops : ScalarOps Scalar} (nx nu nc nx2 nth : nat) :
  s_close s_epsilon s_zero s_zero = true ->
  LqrKnotTpl.nx (LqrKnotTpl.copy (LqrKnotTpl.make nx nu nc nx2 nth)) = nx /\
  LqrKnotTpl.nu (LqrKnotTpl.copy (LqrKnotTpl.make nx nu nc nx2 nth)) = nu /\
  LqrKnotTpl.nc (LqrKnotTpl.copy (LqrKnotTpl.make nx nu nc nx2 nth)) = nc /\
  LqrKnotTpl.nx2 (LqrKnotTpl.copy (LqrKnotTpl.make nx nu nc nx2 nth)) = nx2 /\
  LqrKnotTpl.nth (LqrKnotTpl.copy (LqrKnotTpl.make nx nu nc nx2 nth)) = nth /\
  (forall blk, blk ∈ LqrKnotTpl.block_fields ->
     blk (LqrKnotTpl.copy (LqrKnotTpl.make nx nu nc nx2 nth))
     = blk (LqrKnotTpl.make nx nu nc nx2 nth)) /\
  LqrKnotTpl.isApprox_default
    (LqrKnotTpl.copy (LqrKnotTpl.make nx nu nc nx2 nth))
    (LqrKnotTpl.make nx nu nc nx2 nth) = Ret true.
Proof.
  intros Hz.
  pose proof (wf_make (Scalar := Scalar) nx nu nc nx2 nth) as Hwf.
  rewrite (knot_copy_id _ Hwf).
  repeat (split; [reflexivity|]).
  unfold LqrKnotTpl.isApprox_default.
  apply (knot_isApprox_true_iff _ _ s_epsilon Hwf Hwf).
  split.
  - apply lqrKnotsSameDim_true. repeat split.
  - intros blk Hin. each_member Hin; by apply elementwise_close_zeros.
Qed.

Lemma copy_of_constructed_knot_isApprox_witness :
  LqrKnotTpl.isApprox_default (LqrKnotTpl.copy scenario_knot) scenario_knot
  = Ret true.
Proof.
  apply (copy_of_constructed_knot_isApprox (ops := double_ops) 2 1 0 2 0).
  vm_compute. reflexivity.
Defined.

Lemma grown_to_own_shape {Scalar : Type} {ops : ScalarOps Scalar}
    (m : ManagedMatrix.t Scalar) (r c : nat) :
  ManagedMatrix.wf m -> ManagedMatrix.rows m = r -> ManagedMatrix.cols m = c ->
  ManagedMatrix.grown m r c = m.
Proof. intros Hwf <- <-. by apply grown_same_shape. Qed.

(** C3. For a knot that satisfies the invariant of the data model and a
    parameter dimension [nth'] at least its current one,
    [addParameterization(nth')] leaves the blocks [Q, S, R, q, r, A, B, E, f,
    C, D, d] and the other dimensions as they are, makes [nth'] the parameter
    dimension and gives [Gth, Gx, Gu, Gv, gamma] the shapes [nth'] determines;
    in these blocks an entry the old shape had keeps its value and an added
    entry is zero. Called with the current [nth] it changes no value. *)
Theorem addParameterization_knot_frame
    {Scalar : Type} {ops : ScalarOps Scalar}
    (k : LqrKnotTpl.t Scalar) (nth' : nat) :
  LqrKnotTpl.wf k -> LqrKnotTpl.nth k <= nth' ->
  (forall blk, blk ∈ LqrKnotTpl.core_fields ->
     blk (LqrKnotTpl.addParameterization k nth') = blk k) /\
  (LqrKnotTpl.nx (LqrKnotTpl.addParameterization k nth') = LqrKnotTpl.nx k /\
   LqrKnotTpl.nu (LqrKnotTpl.addParameterization k nth') = LqrKnotTpl.nu k /\
   LqrKnotTpl.nc (LqrKnotTpl.addParameterization k nth') = LqrKnotTpl.nc k /\
   LqrKnotTpl.nx2 (LqrKnotTpl.addParameterization k nth') = LqrKnotTpl.nx2 k /\
   LqrKnotTpl.nth (LqrKnotTpl.addParameterization k nth') = nth') /\
  LqrKnotTpl.wf (LqrKnotTpl.addParameterization k nth') /\
  (forall blk, blk ∈ param_fields ->
     (forall i j,
        i < ManagedMatrix.rows (blk k) -> j < ManagedMatrix.cols (blk k) ->
        ManagedMatrix.coeff (blk (LqrKnotTpl.addParameterization k nth')) i j
        = ManagedMatrix.coeff (blk k) i j) /\
     (forall i j,
        i < ManagedMatrix.rows (blk (LqrKnotTpl.addParameterization k nth')) ->
        j < ManagedMatrix.cols (blk (LqrKnotTpl.addParameterization k nth')) ->
        ~ (i < ManagedMatrix.rows (blk k) /\ j < ManagedMatrix.cols (blk k)) ->
        ManagedMatrix.coeff (blk (LqrKnotTpl.addParameterization k nth')) i j
        = Some s_zero)) /\
  (nth' = LqrKnotTpl.nth k -> LqrKnotTpl.addParameterization k nth' = k).
Proof.
  intros Hwf Hle. destruct k. knot_blocks Hwf. simpl in *.
  split; [|split; [|split; [|split]]].
  - intros blk Hin. each_member Hin; simpl; by apply copy_id.
  - repeat split.
  - unfold LqrKnotTpl.wf, LqrKnotTpl.addParameterization. simpl.
    rewrite !copy_id by done.
    repeat (constructor; [first [done | repeat split; apply wf_grown]|]).
    constructor.
  - intros blk Hin.
    each_member Hin; simpl in *;
      (split; [intros i j Hi Hj; apply coeff_grown_old; first [done | lia]
              |intros i j Hi Hj Hnew; by apply coeff_grown_new]).
  - intros ->. unfold LqrKnotTpl.addParameterization. simpl.
    rewrite !copy_id by done.
    by rewrite !grown_to_own_shape.
Qed.

Lemma addParameterization_knot_frame_witness :
  LqrKnotTpl.nth (LqrKnotTpl.addParameterization scenario_knot 2) = 2 /\
  ManagedMatrix.coeff
    (LqrKnotTpl.Gth (LqrKnotTpl.addParameterization scenario_knot 2)) 1 1
  = Some 0%float /\
  LqrKnotTpl.Q (LqrKnotTpl.addParameterization scenario_knot 2)
  = LqrKnotTpl.Q scenario_knot.
Proof.
  destruct (addParameterization_knot_frame scenario_knot 2 (wf_make 2 1 0 2 0))
    as (Hcore & (_ & _ & _ & _ & Hnth) & _ & Hparam & _).
  { vm_compute. lia. }
  split; [exact Hnth|]. split.
  - apply (Hparam LqrKnotTpl.Gth); [by left | vm_compute; lia | vm_compute; lia |].
    vm_compute. lia.
  - apply (Hcore LqrKnotTpl.Q). by left.
Defined.

(** ** [addParameterization] on problems *)

Section ProblemLoops.
Context {Scalar : Type} {ops : ScalarOps Scalar}.
Implicit Types (p other : LqrProblemTpl.t Scalar) (k : LqrKnotTpl.t Scalar).

(** The loop, entered at index [j] with the stages below [j] already grown,
    grows the remaining ones and stops after the last. *)
Lemma addParameterization_loop_all (nth : nat) (l : list (LqrKnotTpl.t Scalar))
    (fuel j : nat) :
  (Z.of_nat (length l) <= INT_MAX)%Z ->
  j <= length l -> length l - j <= fuel ->
  LqrProblemTpl.addParameterization_loop fuel (Z.of_nat j)
    (Z.of_nat (length l) - 1) nth
    (map (fun k => LqrKnotTpl.addParameterization k nth) (take j l) ++ drop j l)
  = Ret (map (fun k => LqrKnotTpl.addParameterization k nth) l).
Proof.
  intros Hfit. revert j.
  assert (forall j fuel', j = length l ->
    LqrProblemTpl.addParameterization_loop fuel' (Z.of_nat j)
      (Z.of_nat (length l) - 1) nth
      (map (fun k => LqrKnotTpl.addParameterization k nth) (take j l) ++ drop j l)
    = Ret (map (fun k => LqrKnotTpl.addParameterization k nth) l)) as Hend.
  { intros j fuel' ->.
    rewrite firstn_all, drop_all, app_nil_r.
    destruct fuel'; simpl;
      by rewrite (proj2 (Z.leb_gt _ _)) by lia. }
  induction fuel as [|fuel IH]; intros j Hj Hfuel.
  - apply Hend. lia.
  - destruct (decide (j = length l)) as [->|Hne]; [by apply Hend|].
    assert (j < length l) as Hlt by lia.
    destruct (lookup_lt_is_Some_2 l j Hlt) as [x Hx].
    simpl. rewrite (proj2 (Z.leb_le _ _)) by lia.
    unfold vector_at. rewrite Nat2Z.id.
    rewrite !map_is_fmap.
    assert (length ((fun k => LqrKnotTpl.addParameterization k nth) <$> take j l) = j)
      as Hlen by (rewrite length_fmap, length_take; lia).
    rewrite lookup_app_r by lia.
    rewrite Hlen, Nat.sub_diag, lookup_drop, Nat.add_0_r, Hx. simpl.
    rewrite insert_app_r_alt by lia.
    rewrite Hlen, Nat.sub_diag, (drop_S l x j Hx). simpl.
    rewrite to_uint_small by (unfold UINT_MAX, INT_MAX in *; lia).
    replace (Z.of_nat j + 1)%Z with (Z.of_nat (S j)) by lia.
    rewrite <- (IH (S j)) by lia.
    f_equal. rewrite (take_S_r l j x Hx).
    change (map ?h ?v) with (h <$> v).
    by rewrite fmap_app, <- app_assoc.
Qed.

End ProblemLoops.

(** C8. On a problem whose number of stages is representable in [int],
    [addParameterization(nth)] returns, having applied the knot-level
    [addParameterization(nth)] to every stage of the sequence, all
    [horizon() + 1] of them, and to nothing else; on the empty problem it
    returns at once and the problem is as it was. *)
Theorem addParameterization_problem_all_stages
    {Scalar : Type} {ops : ScalarOps Scalar}
    (p : LqrProblemTpl.t Scalar) (nth fuel : nat) :
  (Z.of_nat (length (LqrProblemTpl.stages p)) <= INT_MAX)%Z ->
  length (LqrProblemTpl.stages p) <= fuel ->
  LqrProblemTpl.addParameterization fuel p nth
  = Ret (LqrProblemTpl.mk (LqrProblemTpl.G0 p) (LqrProblemTpl.g0 p)
           (map (fun k => LqrKnotTpl.addParameterization k nth)
                (LqrProblemTpl.stages p))) /\
  Z.of_nat (length (LqrProblemTpl.stages p)) = (LqrProblemTpl.horizon p + 1)%Z /\
  (LqrProblemTpl.stages p = [] ->
   forall fuel', LqrProblemTpl.addParameterization fuel' p nth = Ret p).
Proof.
  intros Hfit Hfuel. split; [|split].
  - unfold LqrProblemTpl.addParameterization.
    destruct (LqrProblemTpl.stages_empty p) eqn:Hemp.
    + apply stages_empty_true in Hemp. destruct p as [G g st].
      simpl in *. by subst st.
    + assert (LqrProblemTpl.stages p <> []) as Hne.
      { intros Hnil%stages_empty_true. congruence. }
      assert (0 < length (LqrProblemTpl.stages p)) as Hpos.
      { destruct (LqrProblemTpl.stages p); [done|simpl; lia]. }
      rewrite (horizon_fits p Hfit). unfold LqrProblemTpl.stages_size.
      rewrite to_uint_small by (unfold UINT_MAX, INT_MAX in *; lia).
      pose proof (addParameterization_loop_all nth (LqrProblemTpl.stages p)
                    fuel 0 Hfit) as Hloop.
      simpl in Hloop. change (Z.of_nat 0) with 0%Z in Hloop.
      rewrite drop_0 in Hloop.
      rewrite Hloop by lia. reflexivity.
  - rewrite (horizon_fits p Hfit). unfold LqrProblemTpl.stages_size. lia.
  - intros Hnil fuel'. unfold LqrProblemTpl.addParameterization.
    by rewrite (proj2 (stages_empty_true p) Hnil).
Qed.

Lemma addParameterization_problem_all_stages_witness :
  LqrProblemTpl.addParameterization 3 scenario_problem 2
  = Ret (LqrProblemTpl.mk (LqrProblemTpl.G0 scenario_problem)
           (LqrProblemTpl.g0 scenario_problem)
           (map (fun k => LqrKnotTpl.addParameterization k 2)
                (LqrProblemTpl.stages scenario_problem))).
Proof.
  apply (addParameterization_problem_all_stages scenario_problem 2 3).
  - vm_compute. congruence.
  - vm_compute. lia.
Defined.

(** ** [operator<<] *)

Lemma string_app_assoc (a b c : string) :
  ((a ++ b) ++ c = a ++ (b ++ c))%string.
Proof. induction a as [|ch a IH]; simpl; [reflexivity | by rewrite IH]. Qed.

Lemma string_app_empty_r (a : string) : (a ++ EmptyString = a)%string.
Proof. induction a as [|ch a IH]; simpl; [reflexivity | by rewrite IH]. Qed.

Lemma occurs_right (s a b : string) : occurs s b -> occurs s (a ++ b)%string.
Proof.
  intros (pre & post & ->). exists (a ++ pre)%string, post.
  by rewrite !string_app_assoc.
Qed.

Lemma occurs_left (s a b : string) : occurs s a -> occurs s (a ++ b)%string.
Proof.
  intros (pre & post & ->). exists pre, (post ++ b)%string.
  by rewrite !string_app_assoc.
Qed.

Section Printing.
Context {Scalar : Type}.
Implicit Types (k : LqrKnotTpl.t Scalar)
  (pr : ManagedMatrix.t Scalar -> string -> string) (oss : ostream.t).

Lemma occurs_sections pr k secs sec :
  sec ∈ secs -> occurs (section_text pr k sec) (sections_text pr k secs).
Proof.
  unfold sections_text. induction secs as [|sec' secs IH]; intros Hin.
  - by apply elem_of_nil in Hin.
  - apply elem_of_cons in Hin as [->|Hin]; simpl.
    + exists EmptyString, (fold_right append EmptyString
                            (map (section_text pr k) secs)).
      reflexivity.
    + destruct (IH Hin) as (pre & post & ->).
      exists (section_text pr k sec' ++ pre)%string, post.
      by rewrite string_app_assoc.
Qed.

Lemma insert_good oss (s : string) :
  ostream.good oss = true ->
  ostream.insert oss s
  = ostream.mk (ostream.text oss ++ ostream.padded oss s) true 0
      (ostream.fill oss) (ostream.adjust_left oss).
Proof. intros Hgood. unfold ostream.insert. by rewrite Hgood. Qed.

Lemma insert_no_width (t : string) (c : ascii) (l : bool) (s : string) :
  ostream.insert (ostream.mk t true 0 c l) s = ostream.mk (t ++ s) true 0 c l.
Proof.
  unfold ostream.insert, ostream.padded. cbn. destruct l.
  - by rewrite string_app_empty_r.
  - reflexivity.
Qed.

Lemma insert_object_no_width (t : string) (c : ascii) (l : bool) (s : string) :
  ostream.insert_object (ostream.mk t true 0 c l) s
  = ostream.mk (t ++ s) true 0 c l.
Proof. reflexivity. Qed.

(** On a stream in good state: what the stream is after [operator<<]. *)
Lemma operator_shl_good (NDEBUG : bool) pr oss k :
  ostream.good oss = true ->
  LqrKnotTpl.operator_shl NDEBUG pr oss k
  = ostream.mk (ostream.text oss ++ ostream.padded oss "LqrKnot {"
                ++ knot_report NDEBUG pr k)
      true 0 (ostream.fill oss) (ostream.adjust_left oss).
Proof.
  intros Hgood. unfold LqrKnotTpl.operator_shl.
  rewrite (insert_good oss _ Hgood).
  rewrite <- (string_app_assoc (ostream.text oss)).
  generalize (ostream.text oss ++ ostream.padded oss "LqrKnot {")%string
    as t0.
  intros t0.
  unfold knot_report, dimension_lines, nth_text, sections_text, section_text,
    core_sections, param_sections, label.
  destruct k as [nx nu nc nx2 nth Q S R q r A B E f C D d Gth Gx Gu Gv gamma].
  cbn [LqrKnotTpl.to_const_view LqrKnotTpl.nx LqrKnotTpl.nu LqrKnotTpl.nc
       LqrKnotTpl.nth LqrKnotTpl.Q LqrKnotTpl.S LqrKnotTpl.R LqrKnotTpl.q
       LqrKnotTpl.r LqrKnotTpl.A LqrKnotTpl.B LqrKnotTpl.E LqrKnotTpl.f
       LqrKnotTpl.C LqrKnotTpl.D LqrKnotTpl.d LqrKnotTpl.Gth LqrKnotTpl.Gx
       LqrKnotTpl.Gu LqrKnotTpl.gamma map fold_right fst snd].
  destruct (0 <? nth); destruct NDEBUG;
    repeat first [rewrite insert_no_width | rewrite insert_object_no_width];
    f_equal; rewrite ?string_app_assoc, ?string_app_empty_r; reflexivity.
Qed.

(** On a stream that is not in good state nothing happens. *)
Lemma operator_shl_failed (NDEBUG : bool) pr oss k :
  ostream.good oss = false -> LqrKnotTpl.operator_shl NDEBUG pr oss k = oss.
Proof.
  intros Hbad.
  assert (forall s, ostream.insert oss s = oss) as Hins
    by (intros s; unfold ostream.insert; by rewrite Hbad).
  assert (forall s, ostream.insert_object oss s = oss) as Hobj
    by (intros s; unfold ostream.insert_object; by rewrite Hbad).
  unfold LqrKnotTpl.operator_shl.
  rewrite !Hins.
  destruct (0 <? LqrKnotTpl.nth (LqrKnotTpl.to_const_view k)), NDEBUG;
    by rewrite ?Hins, ?Hobj, ?Hins.
Qed.

End Printing.

(** C9 (counterexample). [param_knot] has [nth = 1] and [param_knot_Gv1]
    differs from it in [Gv] only; whatever the build, whatever the stream and
    whatever [eigenPrintWithPreamble] writes, streaming the two leaves the
    same stream, so the text does not hold the contents of [Gv]. Moreover
    [operator<<] hands the twelve cost, dynamics and constraint blocks to
    [eigenPrintWithPreamble] whatever their dimensions: with a printer that
    writes its preamble, the section of [C] is there for a knot with
    [nc = 0]. And on a stream that is not in good state no text is produced
    at all. *)
Lemma operator_shl_does_not_write_Gv :
  LqrKnotTpl.nth param_knot = 1 /\
  LqrKnotTpl.Gv param_knot <> LqrKnotTpl.Gv param_knot_Gv1 /\
  (forall (NDEBUG : bool) (pr : ManagedMatrix.t float -> string -> string)
          (oss : ostream.t),
     LqrKnotTpl.operator_shl NDEBUG pr oss param_knot
     = LqrKnotTpl.operator_shl NDEBUG pr oss param_knot_Gv1) /\
  LqrKnotTpl.nc scenario_knot = 0 /\
  occurs (label "C")
    (ostream.text
       (LqrKnotTpl.operator_shl false (fun _ preamble => preamble)
          fresh_stream scenario_knot)) /\
  (forall (NDEBUG : bool) (pr : ManagedMatrix.t float -> string -> string)
          (s : string),
     ostream.text
       (LqrKnotTpl.operator_shl NDEBUG pr (failed_stream s) scenario_knot) = s).
Proof.
  split; [reflexivity|]. split; [|split; [|split; [|split]]].
  - vm_compute. intros [=].
  - intros NDEBUG pr oss. reflexivity.
  - reflexivity.
  - rewrite operator_shl_good by reflexivity.
    cbn [ostream.text]. do 2 apply occurs_right.
    unfold knot_report. do 2 apply occurs_right. do 2 apply occurs_left.
    apply (occurs_sections (fun _ preamble => preamble) scenario_knot
             core_sections (LqrKnotTpl.C, "C"%string)).
    unfold core_sections. do 9 right. left.
  - intros NDEBUG pr s. by rewrite operator_shl_failed.
Qed.

(** C9, amended. On a stream in good state, streaming a knot appends to what
    the stream holds: the opening [LqrKnot {], padded with fill characters to
    the field width if one is pending (after it when the adjustment is to the
    left, before it otherwise), and the lines of [nx], [nu] and [nc], followed when
    [nth > 0] by the line of [nth]; in a debug build, for each of
    [Q, S, R, q, r, A, B, E, f, C, D, d], in this order and whatever the
    dimensions, the section [eigenPrintWithPreamble] writes for it, then,
    only when [nth > 0], the sections of [Gth], [Gx], [Gu] and [gamma]; and
    the closing brace on a line of its own. When [nth] is zero neither the
    line of [nth] nor any section of a parameter block is written, and in a
    release build no section at all. The stream is left in good state with no
    field width pending. On a stream that is not in good state nothing is
    written. *)
Theorem operator_shl_sections {Scalar : Type}
    (pr : ManagedMatrix.t Scalar -> string -> string) (oss : ostream.t)
    (k : LqrKnotTpl.t Scalar) :
  (forall NDEBUG,
     ostream.good oss = true ->
     LqrKnotTpl.operator_shl NDEBUG pr oss k
     = ostream.mk
         (ostream.text oss
          ++ (if ostream.adjust_left oss
              then "LqrKnot {"
                   ++ ostream.fill_chars (ostream.width oss - 9) (ostream.fill oss)
              else ostream.fill_chars (ostream.width oss - 9) (ostream.fill oss)
                   ++ "LqrKnot {")
          ++ knot_report NDEBUG pr k)
         true 0 (ostream.fill oss) (ostream.adjust_left oss)) /\
  (forall NDEBUG,
     ostream.good oss = false ->
     LqrKnotTpl.operator_shl NDEBUG pr oss k = oss) /\
  knot_report true pr k
  = (nl ++ "  nx:  " ++ fmt_d (LqrKnotTpl.nx k)
     ++ nl ++ "  nu:  " ++ fmt_d (LqrKnotTpl.nu k)
     ++ nl ++ "  nc:  " ++ fmt_d (LqrKnotTpl.nc k)
     ++ (if (0 <? LqrKnotTpl.nth k)%nat
         then nl ++ "  nth: " ++ fmt_d (LqrKnotTpl.nth k) else EmptyString)
     ++ nl ++ "}")%string /\
  (LqrKnotTpl.nth k = 0 ->
   knot_report false pr k
   = (nl ++ "  nx:  " ++ fmt_d (LqrKnotTpl.nx k)
      ++ nl ++ "  nu:  " ++ fmt_d (LqrKnotTpl.nu k)
      ++ nl ++ "  nc:  " ++ fmt_d (LqrKnotTpl.nc k)
      ++ pr (LqrKnotTpl.Q k) (nl ++ "  Q: ") ++ pr (LqrKnotTpl.S k) (nl ++ "  S: ")
      ++ pr (LqrKnotTpl.R k) (nl ++ "  R: ") ++ pr (LqrKnotTpl.q k) (nl ++ "  q: ")
      ++ pr (LqrKnotTpl.r k) (nl ++ "  r: ") ++ pr (LqrKnotTpl.A k) (nl ++ "  A: ")
      ++ pr (LqrKnotTpl.B k) (nl ++ "  B: ") ++ pr (LqrKnotTpl.E k) (nl ++ "  E: ")
      ++ pr (LqrKnotTpl.f k) (nl ++ "  f: ") ++ pr (LqrKnotTpl.C k) (nl ++ "  C: ")
      ++ pr (LqrKnotTpl.D k) (nl ++ "  D: ") ++ pr (LqrKnotTpl.d k) (nl ++ "  d: ")
      ++ nl ++ "}")%string) /\
  (0 < LqrKnotTpl.nth k ->
   knot_report false pr k
   = (nl ++ "  nx:  " ++ fmt_d (LqrKnotTpl.nx k)
      ++ nl ++ "  nu:  " ++ fmt_d (LqrKnotTpl.nu k)
      ++ nl ++ "  nc:  " ++ fmt_d (LqrKnotTpl.nc k)
      ++ nl ++ "  nth: " ++ fmt_d (LqrKnotTpl.nth k)
      ++ pr (LqrKnotTpl.Q k) (nl ++ "  Q: ") ++ pr (LqrKnotTpl.S k) (nl ++ "  S: ")
      ++ pr (LqrKnotTpl.R k) (nl ++ "  R: ") ++ pr (LqrKnotTpl.q k) (nl ++ "  q: ")
      ++ pr (LqrKnotTpl.r k) (nl ++ "  r: ") ++ pr (LqrKnotTpl.A k) (nl ++ "  A: ")
      ++ pr (LqrKnotTpl.B k) (nl ++ "  B: ") ++ pr (LqrKnotTpl.E k) (nl ++ "  E: ")
      ++ pr (LqrKnotTpl.f k) (nl ++ "  f: ") ++ pr (LqrKnotTpl.C k) (nl ++ "  C: ")
      ++ pr (LqrKnotTpl.D k) (nl ++ "  D: ") ++ pr (LqrKnotTpl.d k) (nl ++ "  d: ")
      ++ pr (LqrKnotTpl.Gth k) (nl ++ "  Gth: ")
      ++ pr (LqrKnotTpl.Gx k) (nl ++ "  Gx: ")
      ++ pr (LqrKnotTpl.Gu k) (nl ++ "  Gu: ")
      ++ pr (LqrKnotTpl.gamma k) (nl ++ "  gamma: ")
      ++ nl ++ "}")%string).
Proof.
  split; [intros NDEBUG Hgood; by rewrite operator_shl_good|].
  split; [intros NDEBUG; apply operator_shl_failed|].
  unfold knot_report, dimension_lines, nth_text, sections_text, section_text,
    core_sections, param_sections, label.
  cbn [map fold_right fst snd].
  split; [|split].
  - destruct (0 <? LqrKnotTpl.nth k);
      rewrite ?string_app_assoc, ?string_app_empty_r; reflexivity.
  - intros ->. cbn [Nat.ltb Nat.leb].
    rewrite ?string_app_assoc, ?string_app_empty_r. reflexivity.
  - intros Hnth%Nat.ltb_lt. rewrite Hnth.
    rewrite ?string_app_assoc, ?string_app_empty_r. reflexivity.
Qed.

(** ** [evaluate] *)

Section Evaluate.
Context {Scalar : Type} {ops : ScalarOps Scalar}.
Implicit Types (p : LqrProblemTpl.t Scalar) (xs us : list (list Scalar))
  (k : LqrKnotTpl.t Scalar) (M : ManagedMatrix.t Scalar) (x y : list Scalar).

Lemma sigma_from_shift (acc : Scalar) (s n : nat) (f : nat -> Scalar) :
  sigma_from acc (S s) n f = sigma_from acc s n (fun i => f (S i)).
Proof.
  unfold sigma_from. revert acc s.
  induction n as [|n IH]; intros acc s; simpl; [reflexivity|]. apply IH.
Qed.

Lemma sigma_from_ext (acc : Scalar) (s n : nat) (f g : nat -> Scalar) :
  (forall i, s <= i < s + n -> f i = g i) ->
  sigma_from acc s n f = sigma_from acc s n g.
Proof.
  unfold sigma_from. revert acc s.
  induction n as [|n IH]; intros acc s Hfg; simpl; [reflexivity|].
  rewrite (Hfg s) by lia. apply IH. intros i Hi. apply Hfg. lia.
Qed.

(** A dense dot product is the sum of the products of the entries. *)
Lemma dot_sigma (a b : list Scalar) :
  length a = length b ->
  dot a b = sigma (length a) (fun i => s_mul (entry a i) (entry b i)).
Proof.
  unfold dot, sum_terms, sigma. generalize (s_zero (Scalar := Scalar)) as acc.
  revert b. induction a as [|x a IH]; intros [|y b] acc Hlen;
    simpl in Hlen; try discriminate; [reflexivity|].
  simpl length. unfold sigma_from. simpl.
  change (fold_left ?g (seq 1 ?n) ?z) with (sigma_from z 1 n (fun i => s_mul (entry (x :: a) i) (entry (y :: b) i))).
  rewrite sigma_from_shift. apply IH. lia.
Qed.

Lemma entry_mat_row M (i j : nat) :
  i < ManagedMatrix.rows M -> j < ManagedMatrix.cols M ->
  entry (mat_row M i) j = mat_entry M i j.
Proof.
  intros Hi Hj. unfold entry, mat_entry, mat_row.
  rewrite map_is_fmap, list_lookup_fmap, lookup_seq_lt by done.
  unfold ManagedMatrix.coeff.
  apply Nat.ltb_lt in Hi, Hj. by rewrite Hi, Hj.
Qed.

Lemma entry_mat_vec M y (i : nat) :
  i < ManagedMatrix.rows M -> length y = ManagedMatrix.cols M ->
  entry (mat_vec M y) i
  = sigma (ManagedMatrix.cols M) (fun j => s_mul (mat_entry M i j) (entry y j)).
Proof.
  intros Hi Hy. unfold entry at 1. unfold mat_vec.
  rewrite map_is_fmap, list_lookup_fmap, lookup_seq_lt by done. simpl.
  assert (length (mat_row M i) = ManagedMatrix.cols M) as Hrow
    by (unfold mat_row; by rewrite length_map, length_seq).
  rewrite dot_sigma by congruence. rewrite Hrow.
  apply sigma_from_ext. intros j Hj. by rewrite entry_mat_row by lia.
Qed.

(** The dense product [x^T M y] is the double sum of the specification. *)
Lemma bilinear_quadratic_form x M y :
  length x = ManagedMatrix.rows M -> length y = ManagedMatrix.cols M ->
  bilinear x M y = quadratic_form x M y.
Proof.
  intros Hx Hy. unfold bilinear, quadratic_form.
  assert (length (mat_vec M y) = ManagedMatrix.rows M) as Hmv
    by (unfold mat_vec; by rewrite length_map, length_seq).
  rewrite dot_sigma by congruence. rewrite Hx.
  apply sigma_from_ext. intros i Hi. by rewrite entry_mat_vec by lia.
Qed.

Lemma dot_linear_form (v : ManagedMatrix.t Scalar) x :
  ManagedMatrix.wf v -> ManagedMatrix.cols v = 1 ->
  length x = ManagedMatrix.rows v ->
  dot (ManagedMatrix.coeffs v) x = linear_form v x.
Proof.
  intros Hwf Hc Hx. unfold linear_form.
  assert (length (ManagedMatrix.coeffs v) = ManagedMatrix.rows v) as Hlen
    by (rewrite Hwf, Hc; lia).
  rewrite dot_sigma by congruence. rewrite Hlen.
  apply sigma_from_ext. intros i Hi. f_equal.
  unfold entry, mat_entry, ManagedMatrix.coeff. rewrite Hc.
  destruct (i <? ManagedMatrix.rows v) eqn:E; [reflexivity|].
  apply Nat.ltb_ge in E. lia.
Qed.

(** On a knot that satisfies the invariant, and a state and a control of its
    dimensions, the term computed with dense products is the one the
    specification writes. *)
Lemma stage_cost_objective k (x u : list Scalar) :
  LqrKnotTpl.wf k ->
  length x = LqrKnotTpl.nx k -> length u = LqrKnotTpl.nu k ->
  LqrProblemTpl.stage_cost k x u = stage_objective k x u.
Proof.
  intros Hwf Hx Hu. destruct k. knot_blocks Hwf. simpl in *.
  unfold LqrProblemTpl.stage_cost, stage_objective. simpl.
  rewrite !bilinear_quadratic_form by congruence.
  rewrite !dot_linear_form by first [done | congruence].
  reflexivity.
Qed.

Lemma stage_data_in_range p xs us (i : nat) k x u :
  LqrProblemTpl.stages p !! i = Some k -> xs !! i = Some x -> us !! i = Some u ->
  length x = LqrKnotTpl.nx k -> length u = LqrKnotTpl.nu k ->
  LqrProblemTpl.stage_data p xs us i = Ret (k, x, u).
Proof.
  intros Hk Hx Hu Hlx Hlu. unfold LqrProblemTpl.stage_data.
  rewrite (vector_at_nat _ i k Hk), (vector_at_nat _ i x Hx),
    (vector_at_nat _ i u Hu).
  cbn [mbind outcome_bind].
  by rewrite Hlx, Hlu, !Nat.eqb_refl.
Qed.

(** The running total over the stages [i, i + m) adds their terms in order. *)
Lemma accumulate_sum_stages p xs us
    (h h' : LqrKnotTpl.t Scalar -> list Scalar -> list Scalar -> Scalar)
    (m i : nat) (acc : Scalar) :
  (forall j k x u,
     LqrProblemTpl.stages p !! j = Some k -> xs !! j = Some x ->
     us !! j = Some u ->
     length x = LqrKnotTpl.nx k /\ length u = LqrKnotTpl.nu k /\
     h k x u = h' k x u) ->
  i + m = length (LqrProblemTpl.stages p) ->
  i + m = length xs -> i + m = length us ->
  accumulate
    (fun j => '(k, x, u) ← LqrProblemTpl.stage_data p xs us j; Ret (h k x u))
    (seq i m) acc
  = Ret (sum_stages h' acc (drop i (LqrProblemTpl.stages p))
           (drop i xs) (drop i us)).
Proof.
  intros Hdims. revert i acc.
  induction m as [|m IH]; intros i acc Hs Hx Hu.
  - rewrite !drop_ge by lia. reflexivity.
  - destruct (lookup_lt_is_Some_2 (LqrProblemTpl.stages p) i) as [k Hk]; [lia|].
    destruct (lookup_lt_is_Some_2 xs i) as [x Hxi]; [lia|].
    destruct (lookup_lt_is_Some_2 us i) as [u Hui]; [lia|].
    rewrite (drop_S _ k i Hk), (drop_S _ x i Hxi), (drop_S _ u i Hui).
    destruct (Hdims i k x u Hk Hxi Hui) as (Hlx & Hlu & Hh).
    cbn [seq accumulate sum_stages].
    rewrite (stage_data_in_range p xs us i k x u Hk Hxi Hui Hlx Hlu).
    cbn [mbind outcome_bind]. rewrite Hh.
    apply IH; lia.
Qed.

Lemma evaluate_sum (cross_term : LqrKnotTpl.t Scalar -> list Scalar ->
                                 list Scalar -> list Scalar -> Scalar)
    p xs us (theta_ : option (list Scalar)) :
  (Z.of_nat (length (LqrProblemTpl.stages p)) <= INT_MAX)%Z ->
  Forall LqrKnotTpl.wf (LqrProblemTpl.stages p) ->
  trajectory_fits p xs us theta_ ->
  LqrProblemTpl.evaluate cross_term p xs us theta_
  = Ret (objective_with_theta cross_term p xs us theta_).
Proof.
  intros Hfit Hwf (Hlx & Hlu & Hdims & Hth).
  unfold LqrProblemTpl.evaluate.
  rewrite (horizon_fits p Hfit). unfold LqrProblemTpl.stages_size.
  rewrite Hlx, Hlu.
  rewrite (proj2 (Z.eqb_eq _ _)) by lia. cbn [andb negb].
  rewrite (accumulate_sum_stages p xs us _ stage_objective _ 0 s_zero);
    [|intros j k x u Hk Hx Hu; destruct (Hdims j k x u Hk Hx Hu) as [H1 H2];
      split; [done|]; split; [done|]; apply stage_cost_objective; try done;
      rewrite Forall_forall in Hwf; apply Hwf, list_elem_of_lookup; eauto
     |lia..].
  cbn [mbind outcome_bind]. rewrite !drop_0.
  unfold objective_with_theta, objective.
  destruct theta_ as [th|]; [|reflexivity].
  destruct (Hth th eq_refl) as (k & ks & Hst & Hlen).
  assert (LqrProblemTpl.ntheta p = Ret (LqrKnotTpl.nth k)) as ->
    by (unfold LqrProblemTpl.ntheta; by rewrite Hst).
  cbn [mbind outcome_bind].
  rewrite Hlen, Nat.eqb_refl. cbn [negb].
  rewrite (accumulate_sum_stages p xs us _
             (fun k x u => cross_term k th x u) _ 0);
    [|intros j k' x u Hk Hx Hu; destruct (Hdims j k' x u Hk Hx Hu) as [H1 H2];
      by repeat split
     |lia..].
  by rewrite !drop_0.
Qed.

End Evaluate.


Lemma scenario_trajectory_fits :
  trajectory_fits scenario_problem scenario_xs scenario_us None.
Proof.
  split; [reflexivity|]. split; [reflexivity|]. split; [|by intros th [=]].
  intros [|[|[|i]]] k x u Hk Hx Hu;
    vm_compute in Hk, Hx, Hu; simplify_eq; split; reflexivity.
Qed.

Lemma scenario_stages_wf :
  Forall LqrKnotTpl.wf (LqrProblemTpl.stages scenario_problem).
Proof.
  unfold scenario_problem, LqrProblemTpl.make. simpl.
  rewrite !(knot_copy_id scenario_knot (wf_make 2 1 0 2 0)).
  repeat constructor; apply wf_make.
Qed.


(** ** Further properties of the header *)

Section MoreProblemFacts.
Context {Scalar : Type} {ops : ScalarOps Scalar}.
Implicit Types (p other : LqrProblemTpl.t Scalar) (k : LqrKnotTpl.t Scalar).

(** The loop of [isApprox] reads the stages below its bound only. *)
Lemma isApprox_loop_reads_below_bound (fuel : nat) (bound : Z)
    (st ost ost' : list (LqrKnotTpl.t Scalar)) (i : Z) :
  (0 <= i)%Z ->
  (forall j : nat, (Z.of_nat j < bound)%Z -> ost !! j = ost' !! j) ->
  LqrProblemTpl.isApprox_loop fuel i bound st ost
  = LqrProblemTpl.isApprox_loop fuel i bound st ost'.
Proof.
  intros Hi Hsame. revert i Hi.
  induction fuel as [|fuel IH]; intros i Hi; simpl; [reflexivity|].
  destruct (i <? bound)%Z eqn:Hlt; [|reflexivity].
  apply Z.ltb_lt in Hlt.
  assert (vector_at ost i = vector_at ost' i) as ->.
  { unfold vector_at. rewrite (Hsame (Z.to_nat i)) by lia. reflexivity. }
  rewrite (IH (to_uint (i + 1))); [reflexivity|].
  unfold to_uint. apply Z.mod_pos_bound. lia.
Qed.

End MoreProblemFacts.

(** X1. On problems: [isApprox] never looks at the last stage. Whatever knot
    stands last in [other], the answer is the same (lines 266-275; the stage
    count of [other] representable in [int]). *)
Theorem isApprox_problem_ignores_last_stage
    {Scalar : Type} {ops : ScalarOps Scalar} (fuel : nat)
    (p : LqrProblemTpl.t Scalar) (G g : ManagedMatrix.t Scalar)
    (st : list (LqrKnotTpl.t Scalar)) (k k' : LqrKnotTpl.t Scalar) :
  (Z.of_nat (length (st ++ [k])) <= INT_MAX)%Z ->
  LqrProblemTpl.isApprox fuel p (LqrProblemTpl.mk G g (st ++ [k]))
  = LqrProblemTpl.isApprox fuel p (LqrProblemTpl.mk G g (st ++ [k'])).
Proof.
  intros Hfit.
  assert (length (st ++ [k']) = length (st ++ [k])) as Hlen
    by (rewrite !length_app; reflexivity).
  assert (LqrProblemTpl.horizon (LqrProblemTpl.mk G g (st ++ [k']))
          = LqrProblemTpl.horizon (LqrProblemTpl.mk G g (st ++ [k]))) as Hh'.
  { unfold LqrProblemTpl.horizon, LqrProblemTpl.stages_size. simpl.
    by rewrite Hlen. }
  assert (LqrProblemTpl.horizon (LqrProblemTpl.mk G g (st ++ [k]))
          = Z.of_nat (length st)) as Hh.
  { rewrite horizon_fits by exact Hfit.
    unfold LqrProblemTpl.stages_size. simpl. rewrite length_app. simpl. lia. }
  unfold LqrProblemTpl.isApprox. rewrite Hh', Hh. simpl.
  destruct (LqrProblemTpl.horizon p =? Z.of_nat (length st))%Z eqn:Heq;
    [|reflexivity].
  apply Z.eqb_eq in Heq. simpl.
  destruct (ManagedMatrix.isApprox (LqrProblemTpl.G0 p) G s_epsilon)
    as [[|]| |]; simpl; try reflexivity.
  destruct (ManagedMatrix.isApprox (LqrProblemTpl.g0 p) g s_epsilon)
    as [[|]| |]; simpl; try reflexivity.
  apply isApprox_loop_reads_below_bound; [lia|].
  intros j Hj. rewrite Heq in Hj.
  rewrite length_app in Hfit. simpl in Hfit.
  rewrite to_uint_small in Hj by (unfold UINT_MAX, INT_MAX in *; lia).
  rewrite !lookup_app_l by lia. reflexivity.
Qed.

Lemma isApprox_problem_ignores_last_stage_witness :
  LqrProblemTpl.isApprox 1 (LqrProblemTpl.make [unit_knot] 0)
    (LqrProblemTpl.mk (ManagedMatrix.zeros 0 1) (ManagedMatrix.zeros 0 1)
       ([] ++ [unit_knot]))
  = LqrProblemTpl.isApprox 1 (LqrProblemTpl.make [unit_knot] 0)
      (LqrProblemTpl.mk (ManagedMatrix.zeros 0 1) (ManagedMatrix.zeros 0 1)
         ([] ++ [unit_knot_Q1])).
Proof.
  apply (isApprox_problem_ignores_last_stage 1 (LqrProblemTpl.make [unit_knot] 0)
           (ManagedMatrix.zeros 0 1) (ManagedMatrix.zeros 0 1) []
           unit_knot unit_knot_Q1).
  vm_compute. congruence.
Defined.

(** ** Problems of different lengths *)

Lemma isApprox_horizon_mismatch {Scalar : Type} {ops : ScalarOps Scalar}
    (fuel : nat) (p other : LqrProblemTpl.t Scalar) :
  LqrProblemTpl.horizon p <> LqrProblemTpl.horizon other ->
  LqrProblemTpl.isApprox fuel p other = Ret false.
Proof.
  intros Hne. unfold LqrProblemTpl.isApprox.
  by rewrite (proj2 (Z.eqb_neq _ _) Hne).
Qed.

(** X2. Two problems with different numbers of stages (each representable in
    [int]) are never approximately equal, and the answer [false] comes before
    any block is looked at: it is returned whatever the shapes of [G0] and
    [g0], whatever the knots hold and whatever the iteration budget (lines
    266-269). *)
Theorem isApprox_problem_stage_count_mismatch
    {Scalar : Type} {ops : ScalarOps Scalar} (fuel : nat)
    (p other : LqrProblemTpl.t Scalar) :
  (Z.of_nat (length (LqrProblemTpl.stages p)) <= INT_MAX)%Z ->
  (Z.of_nat (length (LqrProblemTpl.stages other)) <= INT_MAX)%Z ->
  length (LqrProblemTpl.stages p) <> length (LqrProblemTpl.stages other) ->
  LqrProblemTpl.isApprox fuel p other = Ret false.
Proof.
  intros Hp Ho Hne. apply isApprox_horizon_mismatch.
  rewrite (horizon_fits p Hp), (horizon_fits other Ho).
  unfold LqrProblemTpl.stages_size. lia.
Qed.

Lemma isApprox_problem_stage_count_mismatch_witness :
  LqrProblemTpl.isApprox 0 scenario_problem
    (LqrProblemTpl.mk (ManagedMatrix.zeros 5 7) (ManagedMatrix.zeros 3 1)
       [unit_knot_Q1]) = Ret false.
Proof.
  apply (isApprox_problem_stage_count_mismatch 0 scenario_problem).
  - vm_compute. congruence.
  - vm_compute. congruence.
  - vm_compute. congruence.
Defined.

(** ** [lqrKnotsSameDim] *)

(** X3. [lqrKnotsSameDim] is an equivalence relation on knots: it holds
    between a knot and itself, does not depend on the order of its arguments
    and is transitive; it holds exactly when [nx], [nu], [nc], [nx2] and [nth]
    agree, whatever the blocks hold (lines 291-296). *)
Theorem lqrKnotsSameDim_equivalence {Scalar : Type} :
  (forall k : LqrKnotTpl.t Scalar, LqrKnotTpl.lqrKnotsSameDim k k = true) /\
  (forall lhs rhs : LqrKnotTpl.t Scalar,
     LqrKnotTpl.lqrKnotsSameDim lhs rhs = LqrKnotTpl.lqrKnotsSameDim rhs lhs) /\
  (forall k1 k2 k3 : LqrKnotTpl.t Scalar,
     LqrKnotTpl.lqrKnotsSameDim k1 k2 = true ->
     LqrKnotTpl.lqrKnotsSameDim k2 k3 = true ->
     LqrKnotTpl.lqrKnotsSameDim k1 k3 = true) /\
  (forall lhs rhs : LqrKnotTpl.t Scalar,
     LqrKnotTpl.lqrKnotsSameDim lhs rhs = true <->
     LqrKnotTpl.nx lhs = LqrKnotTpl.nx rhs /\
     LqrKnotTpl.nu lhs = LqrKnotTpl.nu rhs /\
     LqrKnotTpl.nc lhs = LqrKnotTpl.nc rhs /\
     LqrKnotTpl.nx2 lhs = LqrKnotTpl.nx2 rhs /\
     LqrKnotTpl.nth lhs = LqrKnotTpl.nth rhs).
Proof.
  split; [|split; [|split]].
  - intros k. apply lqrKnotsSameDim_true. repeat split.
  - intros lhs rhs. unfold LqrKnotTpl.lqrKnotsSameDim.
    by rewrite (Nat.eqb_sym (LqrKnotTpl.nx lhs)), (Nat.eqb_sym (LqrKnotTpl.nu lhs)),
      (Nat.eqb_sym (LqrKnotTpl.nc lhs)), (Nat.eqb_sym (LqrKnotTpl.nx2 lhs)),
      (Nat.eqb_sym (LqrKnotTpl.nth lhs)).
  - intros k1 k2 k3 H12 H23.
    apply lqrKnotsSameDim_true in H12, H23. apply lqrKnotsSameDim_true.
    destruct H12 as (?&?&?&?&?), H23 as (?&?&?&?&?). repeat split; congruence.
  - intros lhs rhs. apply lqrKnotsSameDim_true.
Qed.

(** ** The queries on the first stage *)

(** X4. The queries of a problem agree with one another. [isParameterized()]
    always returns; [isInitialized()] is true exactly when [ntheta()] is
    defined; [isParameterized()] is true exactly when [ntheta()] is defined and
    positive; and, the number of stages being representable in [int],
    [isInitialized()] is true exactly when [horizon()] is not negative (lines
    210, 258-264). *)
Theorem problem_queries_agree {Scalar : Type} (p : LqrProblemTpl.t Scalar) :
  (LqrProblemTpl.isParameterized p = Ret true \/
   LqrProblemTpl.isParameterized p = Ret false) /\
  (LqrProblemTpl.isInitialized p = true <->
   exists n, LqrProblemTpl.ntheta p = Ret n) /\
  (LqrProblemTpl.isParameterized p = Ret true <->
   exists n, LqrProblemTpl.ntheta p = Ret n /\ 0 < n) /\
  ((Z.of_nat (length (LqrProblemTpl.stages p)) <= INT_MAX)%Z ->
   (LqrProblemTpl.isInitialized p = true <-> (0 <= LqrProblemTpl.horizon p)%Z)).
Proof.
  split; [|split; [|split]].
  - unfold LqrProblemTpl.isParameterized, LqrProblemTpl.stages_empty.
    destruct (LqrProblemTpl.stages p) as [|k ks]; simpl; [by right|].
    destruct (0 <? LqrKnotTpl.nth k); auto.
  - unfold LqrProblemTpl.isInitialized, LqrProblemTpl.ntheta,
      LqrProblemTpl.stages_empty.
    destruct (LqrProblemTpl.stages p) as [|k ks]; simpl.
    + split; [done|]. intros [n [=]].
    + split; [|done]. intros _. by eexists.
  - unfold LqrProblemTpl.isParameterized, LqrProblemTpl.ntheta,
      LqrProblemTpl.stages_empty.
    destruct (LqrProblemTpl.stages p) as [|k ks]; simpl.
    + split; [done|]. intros (n & [=] & _).
    + split.
      * intros [= Hlt]. apply Nat.ltb_lt in Hlt. eauto.
      * intros (n & [= <-] & Hlt). apply Nat.ltb_lt in Hlt. by rewrite Hlt.
  - intros Hfit. rewrite (horizon_fits p Hfit).
    unfold LqrProblemTpl.isInitialized, LqrProblemTpl.stages_size,
      LqrProblemTpl.stages_empty.
    destruct (LqrProblemTpl.stages p) as [|k ks]; simpl; split;
      first [done | lia].
Qed.

(** ** What [isApprox] computes on problems *)

Section ProblemIsApprox.
Context {Scalar : Type} {ops : ScalarOps Scalar}.
Implicit Types (p other : LqrProblemTpl.t Scalar) (k : LqrKnotTpl.t Scalar)
  (st ost : list (LqrKnotTpl.t Scalar)).

Lemma matrix_isApprox_returns (a b : ManagedMatrix.t Scalar) prec :
  ManagedMatrix.isApprox a b prec <> OutOfFuel.
Proof.
  unfold ManagedMatrix.isApprox. by destruct (ManagedMatrix.same_shape a b).
Qed.

Lemma blocks_approx_returns prec (l1 l2 : list (ManagedMatrix.t Scalar)) :
  LqrKnotTpl.blocks_approx prec l1 l2 <> OutOfFuel.
Proof.
  revert l2. induction l1 as [|a l1 IH]; intros [|b l2]; simpl; try done.
  unfold ManagedMatrix.isApprox.
  destruct (ManagedMatrix.same_shape a b); simpl; [|done].
  destruct (all2 _ _ _); [apply IH|done].
Qed.

Lemma knot_isApprox_returns k k' :
  LqrKnotTpl.isApprox_default k k' <> OutOfFuel.
Proof.
  unfold LqrKnotTpl.isApprox_default, LqrKnotTpl.isApprox.
  destruct (LqrKnotTpl.lqrKnotsSameDim k k'); [apply blocks_approx_returns|done].
Qed.

Lemma isApprox_loop_true_iff (fuel i n : nat) st ost :
  (Z.of_nat n <= UINT_MAX)%Z -> i <= n -> n - i <= fuel ->
  (LqrProblemTpl.isApprox_loop fuel (Z.of_nat i) (Z.of_nat n) st ost = Ret true
   <-> forall j, i <= j < n -> stage_pair_close st ost j) /\
  LqrProblemTpl.isApprox_loop fuel (Z.of_nat i) (Z.of_nat n) st ost <> OutOfFuel.
Proof.
  intros Hn. revert i.
  assert (forall fuel', LqrProblemTpl.isApprox_loop fuel' (Z.of_nat n)
                          (Z.of_nat n) st ost = Ret true) as Hend.
  { intros [|fuel']; simpl; by rewrite Z.ltb_irrefl. }
  induction fuel as [|fuel IH]; intros i Hi Hfuel.
  - assert (i = n) as -> by lia. rewrite Hend. split; [|done].
    split; [|done]. intros _ j Hj. lia.
  - destruct (decide (i = n)) as [->|Hne].
    { rewrite Hend. split; [|done]. split; [|done]. intros _ j Hj. lia. }
    simpl. rewrite (proj2 (Z.ltb_lt _ _)) by lia.
    unfold vector_at. rewrite Nat2Z.id.
    rewrite to_uint_small by (unfold UINT_MAX in *; lia).
    replace (Z.of_nat i + 1)%Z with (Z.of_nat (S i)) by lia.
    destruct (st !! i) as [a|] eqn:Ha; simpl.
    2:{ split; [|done]. split; [done|]. intros Hall.
        destruct (Hall i) as (a & b & Ha' & _); [lia|congruence]. }
    destruct (ost !! i) as [b|] eqn:Hb; simpl.
    2:{ split; [|done]. split; [done|]. intros Hall.
        destruct (Hall i) as (a' & b & _ & Hb' & _); [lia|congruence]. }
    pose proof (knot_isApprox_returns a b) as Hret.
    destruct (LqrKnotTpl.isApprox_default a b) as [[|]| |] eqn:Hab; simpl;
      try done.
    + destruct (IH (S i)) as [Hiff Hfuel']; [lia|lia|].
      split; [|exact Hfuel']. rewrite Hiff. split.
      * intros Hall j Hj. destruct (decide (j = i)) as [->|Hji].
        -- by exists a, b.
        -- apply Hall. lia.
      * intros Hall j Hj. apply Hall. lia.
    + split; [|done]. split; [done|]. intros Hall.
      destruct (Hall i) as (a' & b' & Ha' & Hb' & Hab'); [lia|congruence].
    + split; [|done]. split; [done|]. intros Hall.
      destruct (Hall i) as (a' & b' & Ha' & Hb' & Hab'); [lia|congruence].
Qed.

Lemma isApprox_problem_true_iff (fuel : nat) p other :
  LqrProblemTpl.stages p <> [] ->
  (Z.of_nat (length (LqrProblemTpl.stages p)) <= INT_MAX)%Z ->
  length (LqrProblemTpl.stages p) - 1 <= fuel ->
  (LqrProblemTpl.isApprox fuel p other = Ret true <->
     LqrProblemTpl.horizon p = LqrProblemTpl.horizon other /\
     ManagedMatrix.isApprox (LqrProblemTpl.G0 p) (LqrProblemTpl.G0 other)
       s_epsilon = Ret true /\
     ManagedMatrix.isApprox (LqrProblemTpl.g0 p) (LqrProblemTpl.g0 other)
       s_epsilon = Ret true /\
     forall j, j < length (LqrProblemTpl.stages p) - 1 ->
       stage_pair_close (LqrProblemTpl.stages p) (LqrProblemTpl.stages other) j)
  /\ LqrProblemTpl.isApprox fuel p other <> OutOfFuel.
Proof.
  intros Hne Hfit Hfuel.
  assert (0 < length (LqrProblemTpl.stages p)) as Hpos.
  { destruct (LqrProblemTpl.stages p); [done|simpl; lia]. }
  unfold LqrProblemTpl.isApprox.
  destruct (LqrProblemTpl.horizon p =? LqrProblemTpl.horizon other)%Z eqn:Hh;
    simpl.
  2:{ apply Z.eqb_neq in Hh. split; [|done]. split; [done|]. by intros [? _]. }
  apply Z.eqb_eq in Hh.
  pose proof (matrix_isApprox_returns (LqrProblemTpl.G0 p)
                (LqrProblemTpl.G0 other) s_epsilon) as HG.
  destruct (ManagedMatrix.isApprox (LqrProblemTpl.G0 p) _ _) as [[|]| |];
    simpl; try done.
  2,3: (split; [|done]; split; [done|]; by intros (_ & [=] & _)).
  pose proof (matrix_isApprox_returns (LqrProblemTpl.g0 p)
                (LqrProblemTpl.g0 other) s_epsilon) as Hg.
  destruct (ManagedMatrix.isApprox (LqrProblemTpl.g0 p) _ _) as [[|]| |];
    simpl; try done.
  2,3: (split; [|done]; split; [done|]; by intros (_ & _ & [=] & _)).
  rewrite (horizon_fits p Hfit). unfold LqrProblemTpl.stages_size.
  rewrite to_uint_small by (unfold UINT_MAX, INT_MAX in *; lia).
  replace (Z.of_nat (length (LqrProblemTpl.stages p)) - 1)%Z
    with (Z.of_nat (length (LqrProblemTpl.stages p) - 1)) by lia.
  destruct (isApprox_loop_true_iff fuel 0 (length (LqrProblemTpl.stages p) - 1)
              (LqrProblemTpl.stages p) (LqrProblemTpl.stages other))
    as [Hiff Hret]; [unfold UINT_MAX, INT_MAX in *; lia|lia|lia|].
  change (Z.of_nat 0) with 0%Z in Hiff, Hret.
  split; [|exact Hret]. rewrite Hiff. split.
  - intros Hall.
    split; [rewrite <- Hh, (horizon_fits p Hfit);
            unfold LqrProblemTpl.stages_size; lia|].
    split; [done|]. split; [done|]. intros j Hj. apply Hall. lia.
  - intros (_ & _ & _ & Hall) j Hj. apply Hall. lia.
Qed.

End ProblemIsApprox.

(** X5. On a problem [p] with at least one stage (and a number of stages
    representable in [int]), [p.isApprox(other)] finishes within [horizon()]
    iterations of its loop, and it returns [true] exactly when the horizons
    match, [G0] and [g0] compare close, and each of the first [horizon()]
    stages of [p] compares close to the stage of [other] at the same index;
    the stage at index [horizon()] takes no part (lines 266-275). *)
Theorem isApprox_problem_characterisation
    {Scalar : Type} {ops : ScalarOps Scalar} (fuel : nat)
    (p other : LqrProblemTpl.t Scalar) :
  LqrProblemTpl.stages p <> [] ->
  (Z.of_nat (length (LqrProblemTpl.stages p)) <= INT_MAX)%Z ->
  (LqrProblemTpl.horizon p <= Z.of_nat fuel)%Z ->
  (LqrProblemTpl.isApprox fuel p other = Ret true <->
     LqrProblemTpl.horizon p = LqrProblemTpl.horizon other /\
     ManagedMatrix.isApprox (LqrProblemTpl.G0 p) (LqrProblemTpl.G0 other)
       s_epsilon = Ret true /\
     ManagedMatrix.isApprox (LqrProblemTpl.g0 p) (LqrProblemTpl.g0 other)
       s_epsilon = Ret true /\
     forall j : nat, (Z.of_nat j < LqrProblemTpl.horizon p)%Z ->
       exists a b,
         LqrProblemTpl.stages p !! j = Some a /\
         LqrProblemTpl.stages other !! j = Some b /\
         LqrKnotTpl.isApprox_default a b = Ret true)
  /\ LqrProblemTpl.isApprox fuel p other <> OutOfFuel.
Proof.
  intros Hne Hfit Hfuel.
  pose proof (horizon_fits p Hfit) as Hh.
  unfold LqrProblemTpl.stages_size in Hh.
  destruct (isApprox_problem_true_iff fuel p other Hne Hfit) as [Hiff Hret];
    [lia|].
  split; [|exact Hret]. rewrite Hiff. unfold stage_pair_close.
  split.
  - intros (H1 & H2 & H3 & Hall). repeat split; try done.
    intros j Hj. apply Hall. lia.
  - intros (H1 & H2 & H3 & Hall). repeat split; try done.
    intros j Hj. apply Hall. lia.
Qed.

Lemma isApprox_problem_characterisation_witness :
  LqrProblemTpl.isApprox 2 scenario_problem scenario_problem <> OutOfFuel.
Proof.
  apply (isApprox_problem_characterisation 2 scenario_problem scenario_problem).
  - vm_compute. congruence.
  - vm_compute. congruence.
  - vm_compute. congruence.
Defined.

(** ** Reflexivity and symmetry of [isApprox] *)

Section IsApproxRelation.
Context {Scalar : Type} {ops : ScalarOps Scalar}.
Implicit Types (p other : LqrProblemTpl.t Scalar) (k : LqrKnotTpl.t Scalar)
  (a b : ManagedMatrix.t Scalar).

Lemma all2_diag {A : Type} (P : A -> A -> bool) (l : list A) :
  Forall (fun x => P x x = true) l -> all2 P l l = true.
Proof. induction 1 as [|x l Hx _ IH]; simpl; [done|]. by rewrite Hx, IH. Qed.

Lemma matrix_isApprox_refl a prec :
  Forall (fun x => s_close prec x x = true) (ManagedMatrix.coeffs a) ->
  ManagedMatrix.isApprox a a prec = Ret true.
Proof.
  intros Hself. unfold ManagedMatrix.isApprox, ManagedMatrix.same_shape.
  by rewrite !Nat.eqb_refl, all2_diag.
Qed.

Lemma blocks_approx_refl prec (l : list (ManagedMatrix.t Scalar)) :
  Forall (fun x => s_close prec x x = true) (flat_map ManagedMatrix.coeffs l) ->
  LqrKnotTpl.blocks_approx prec l l = Ret true.
Proof.
  induction l as [|a l IH]; simpl; [done|].
  intros [Ha Hl]%Forall_app. rewrite (matrix_isApprox_refl a prec Ha). simpl.
  by apply IH.
Qed.

Lemma knot_isApprox_refl k :
  Forall (fun x => s_close s_epsilon x x = true) (knot_coeffs k) ->
  LqrKnotTpl.isApprox_default k k = Ret true.
Proof.
  intros Hself. unfold LqrKnotTpl.isApprox_default, LqrKnotTpl.isApprox.
  rewrite (proj2 (lqrKnotsSameDim_true k k)) by repeat split.
  apply blocks_approx_refl.
  unfold knot_coeffs, LqrKnotTpl.block_fields in Hself. simpl in *. exact Hself.
Qed.

(** From here on the comparison of scalars does not depend on the order of its
    operands. *)
Hypothesis close_sym : forall x y : Scalar,
  s_close s_epsilon x y = s_close s_epsilon y x.

Lemma all2_sym (l1 l2 : list Scalar) :
  all2 (s_close s_epsilon) l1 l2 = all2 (s_close s_epsilon) l2 l1.
Proof using Type*.
  revert l2. induction l1 as [|x l1 IH]; intros [|y l2]; simpl; try done.
  by rewrite close_sym, IH.
Qed.

Lemma matrix_isApprox_sym a b :
  ManagedMatrix.isApprox a b s_epsilon = ManagedMatrix.isApprox b a s_epsilon.
Proof using Type*.
  unfold ManagedMatrix.isApprox, ManagedMatrix.same_shape.
  rewrite (Nat.eqb_sym (ManagedMatrix.rows a)),
    (Nat.eqb_sym (ManagedMatrix.cols a)).
  by rewrite all2_sym.
Qed.

Lemma blocks_approx_sym (l1 l2 : list (ManagedMatrix.t Scalar)) :
  LqrKnotTpl.blocks_approx s_epsilon l1 l2
  = LqrKnotTpl.blocks_approx s_epsilon l2 l1.
Proof using Type*.
  revert l2. induction l1 as [|a l1 IH]; intros [|b l2]; simpl; try done.
  rewrite (matrix_isApprox_sym a b).
  destruct (ManagedMatrix.isApprox b a s_epsilon) as [[|]| |]; simpl;
    by try apply IH.
Qed.

Lemma lqrKnotsSameDim_sym k k' :
  LqrKnotTpl.lqrKnotsSameDim k k' = LqrKnotTpl.lqrKnotsSameDim k' k.
Proof using Type*.
  unfold LqrKnotTpl.lqrKnotsSameDim.
  by rewrite (Nat.eqb_sym (LqrKnotTpl.nx k)), (Nat.eqb_sym (LqrKnotTpl.nu k)),
    (Nat.eqb_sym (LqrKnotTpl.nc k)), (Nat.eqb_sym (LqrKnotTpl.nx2 k)),
    (Nat.eqb_sym (LqrKnotTpl.nth k)).
Qed.

Lemma knot_isApprox_sym k k' :
  LqrKnotTpl.isApprox_default k k' = LqrKnotTpl.isApprox_default k' k.
Proof using Type*.
  unfold LqrKnotTpl.isApprox_default, LqrKnotTpl.isApprox.
  rewrite (lqrKnotsSameDim_sym k k').
  destruct (LqrKnotTpl.lqrKnotsSameDim k' k); [|done].
  apply blocks_approx_sym.
Qed.

Lemma isApprox_loop_sym (fuel : nat) (i bound : Z)
    (st ost : list (LqrKnotTpl.t Scalar)) :
  LqrProblemTpl.isApprox_loop fuel i bound st ost
  = LqrProblemTpl.isApprox_loop fuel i bound ost st.
Proof using Type*.
  revert i. induction fuel as [|fuel IH]; intros i; simpl; [done|].
  destruct (i <? bound)%Z; [|done].
  unfold vector_at.
  destruct (st !! Z.to_nat i) as [x|], (ost !! Z.to_nat i) as [y|]; simpl;
    try done.
  rewrite (knot_isApprox_sym x y).
  destruct (LqrKnotTpl.isApprox_default y x) as [[|]| |]; simpl;
    by try apply IH.
Qed.

Lemma isApprox_problem_sym (fuel : nat) p other :
  LqrProblemTpl.isApprox fuel p other = LqrProblemTpl.isApprox fuel other p.
Proof using Type*.
  unfold LqrProblemTpl.isApprox.
  rewrite (Z.eqb_sym (LqrProblemTpl.horizon p)).
  destruct (LqrProblemTpl.horizon other =? LqrProblemTpl.horizon p)%Z eqn:Hh;
    simpl; [|done].
  apply Z.eqb_eq in Hh. rewrite Hh.
  rewrite (matrix_isApprox_sym (LqrProblemTpl.G0 p)).
  destruct (ManagedMatrix.isApprox (LqrProblemTpl.G0 other) _ _) as [[|]| |];
    simpl; try done.
  rewrite (matrix_isApprox_sym (LqrProblemTpl.g0 p)).
  destruct (ManagedMatrix.isApprox (LqrProblemTpl.g0 other) _ _) as [[|]| |];
    simpl; by try apply isApprox_loop_sym.
Qed.

End IsApproxRelation.

(** X6. A problem with at least one stage (and a number of stages
    representable in [int]) is approximately equal to itself,
    [p.isApprox(p)] returns [true], provided each coefficient it holds is
    close to itself at the default tolerance, which is what fails for a NaN or
    an infinite value (lines 266-275). *)
Theorem isApprox_problem_reflexive
    {Scalar : Type} {ops : ScalarOps Scalar} (fuel : nat)
    (p : LqrProblemTpl.t Scalar) :
  LqrProblemTpl.stages p <> [] ->
  (Z.of_nat (length (LqrProblemTpl.stages p)) <= INT_MAX)%Z ->
  (LqrProblemTpl.horizon p <= Z.of_nat fuel)%Z ->
  Forall (fun x => s_close s_epsilon x x = true) (problem_coeffs p) ->
  LqrProblemTpl.isApprox fuel p p = Ret true.
Proof.
  intros Hne Hfit Hfuel Hself.
  pose proof (horizon_fits p Hfit) as Hh.
  unfold LqrProblemTpl.stages_size in Hh.
  unfold problem_coeffs in Hself.
  apply Forall_app in Hself as [HG Hself].
  apply Forall_app in Hself as [Hg Hst].
  apply (isApprox_problem_true_iff fuel p p Hne Hfit); [lia|].
  split; [done|]. split; [by apply matrix_isApprox_refl|].
  split; [by apply matrix_isApprox_refl|].
  intros j Hj.
  destruct (lookup_lt_is_Some_2 (LqrProblemTpl.stages p) j) as [k Hk]; [lia|].
  exists k, k. split; [done|]. split; [done|].
  apply knot_isApprox_refl.
  rewrite Forall_flat_map in Hst.
  rewrite Forall_forall in Hst. apply Hst.
  apply list_elem_of_lookup. eauto.
Qed.

Lemma isApprox_problem_reflexive_witness :
  LqrProblemTpl.isApprox 2 scenario_problem scenario_problem = Ret true.
Proof.
  apply (isApprox_problem_reflexive 2 scenario_problem).
  - vm_compute. congruence.
  - vm_compute. congruence.
  - vm_compute. congruence.
  - vm_compute. repeat constructor.
Defined.

(** X7. When the comparison of two scalars at the default tolerance does not
    depend on their order, neither does the comparison of two problems:
    [p.isApprox(q)] and [q.isApprox(p)] have the same outcome, the undefined
    one included, for every pair of problems (lines 266-275). *)
Theorem isApprox_problem_symmetric
    {Scalar : Type} {ops : ScalarOps Scalar} (fuel : nat)
    (p q : LqrProblemTpl.t Scalar) :
  (forall x y : Scalar, s_close s_epsilon x y = s_close s_epsilon y x) ->
  LqrProblemTpl.isApprox fuel p q = LqrProblemTpl.isApprox fuel q p.
Proof. intros Hsym. by apply isApprox_problem_sym. Qed.

Lemma int_close_sym (x y : Z) :
  @s_close Z int_ops s_epsilon x y = @s_close Z int_ops s_epsilon y x.
Proof.
  simpl. rewrite (Z.min_comm (Z.abs x)).
  replace (Z.abs (y - x)) with (Z.abs (x - y)) by lia. reflexivity.
Qed.

Lemma isApprox_problem_symmetric_witness :
  LqrProblemTpl.isApprox 1 (int_problem 3) (int_problem 4)
  = LqrProblemTpl.isApprox 1 (int_problem 4) (int_problem 3).
Proof.
  apply (isApprox_problem_symmetric 1 (int_problem 3) (int_problem 4)).
  apply int_close_sym.
Defined.

(** ** What [operator<<] leaves on the stream *)

Lemma string_app_inv_head (a b c : string) :
  (a ++ b = a ++ c)%string -> b = c.
Proof. induction a as [|ch a IH]; simpl; [done|]. intros [= H]. by apply IH. Qed.

Lemma knot_text_report {Scalar : Type} (NDEBUG : bool)
    (pr : ManagedMatrix.t Scalar -> string -> string)
    (k : LqrKnotTpl.t Scalar) :
  knot_text NDEBUG pr k = ("LqrKnot {" ++ knot_report NDEBUG pr k)%string.
Proof.
  unfold knot_text. rewrite operator_shl_good by reflexivity. reflexivity.
Qed.


(** ** Reading the dimensions back from the report *)

Lemma all_digits_NilEmpty (d : Decimal.uint) :
  all_digits (NilEmpty.string_of_uint d) = true.
Proof. induction d; simpl; [reflexivity|..]; exact IHd. Qed.

Lemma to_uint_not_Nil (n : nat) : Nat.to_uint n <> Decimal.Nil.
Proof.
  rewrite <- (DecimalNat.Unsigned.of_to n) at 1.
  rewrite DecimalNat.Unsigned.to_of. apply DecimalFacts.unorm_nonnil.
Qed.

Lemma all_digits_fmt_d (n : nat) : all_digits (fmt_d n) = true.
Proof.
  unfold fmt_d, NilZero.string_of_uint.
  destruct (Nat.to_uint n); [reflexivity|..]; apply all_digits_NilEmpty.
Qed.

Lemma fmt_d_inj (n n' : nat) : fmt_d n = fmt_d n' -> n = n'.
Proof.
  unfold fmt_d. intros H.
  apply (f_equal NilZero.uint_of_string) in H.
  rewrite !NilZero.usu in H by apply to_uint_not_Nil.
  injection H as H. by apply DecimalNat.Unsigned.to_uint_inj.
Qed.

(** Two runs of digits, each followed by a character that is not a digit, are
    equal when the texts are. *)
Lemma digits_split (s s' : string) (c : ascii) (r r' : string) :
  all_digits s = true -> all_digits s' = true -> is_digit c = false ->
  (s ++ String c r = s' ++ String c r')%string -> s = s' /\ r = r'.
Proof.
  intros Hs Hs' Hc. revert s' Hs'.
  induction s as [|a s IH]; intros [|a' s'] Hs'; simpl in *.
  - by intros [= ->].
  - intros [= -> _]. apply andb_true_iff in Hs' as [Ha' _]. congruence.
  - intros [= -> _]. apply andb_true_iff in Hs as [Ha _]. congruence.
  - intros [= -> H].
    apply andb_true_iff in Hs as [_ Hs]. apply andb_true_iff in Hs' as [_ Hs'].
    destruct (IH Hs s' Hs' H) as [-> ->]. done.
Qed.

(** The report of a release build, with its line breaks spelled out. *)
Lemma release_report {Scalar : Type}
    (pr : ManagedMatrix.t Scalar -> string -> string)
    (k : LqrKnotTpl.t Scalar) :
  knot_report true pr k
  = String (ascii_of_nat 10)
      ("  nx:  " ++ fmt_d (LqrKnotTpl.nx k)
       ++ String (ascii_of_nat 10)
            ("  nu:  " ++ fmt_d (LqrKnotTpl.nu k)
             ++ String (ascii_of_nat 10)
                  ("  nc:  " ++ fmt_d (LqrKnotTpl.nc k)
                   ++ String (ascii_of_nat 10)
                        (if (0 <? LqrKnotTpl.nth k)%nat
                         then "  nth: " ++ fmt_d (LqrKnotTpl.nth k)
                              ++ String (ascii_of_nat 10) "}"
                         else "}"))))%string.
Proof.
  unfold knot_report, dimension_lines, nth_text, nl.
  destruct (0 <? LqrKnotTpl.nth k);
    rewrite ?string_app_assoc, ?string_app_empty_r; reflexivity.
Qed.

(** X10. On a stream in good state and in a release build, the text
    [operator<<] leaves is a faithful report of [nx], [nu], [nc] and [nth],
    and of nothing else: streamed to the same stream, two knots leave the
    same text exactly when these four dimensions agree. The blocks and [nx2]
    leave no trace in it (lines 298-307, 330-331). *)
Theorem release_report_determines_dimensions {Scalar : Type}
    (pr : ManagedMatrix.t Scalar -> string -> string) (oss : ostream.t)
    (k k' : LqrKnotTpl.t Scalar) :
  ostream.good oss = true ->
  (ostream.text (LqrKnotTpl.operator_shl true pr oss k)
   = ostream.text (LqrKnotTpl.operator_shl true pr oss k')
   <-> LqrKnotTpl.nx k = LqrKnotTpl.nx k' /\
       LqrKnotTpl.nu k = LqrKnotTpl.nu k' /\
       LqrKnotTpl.nc k = LqrKnotTpl.nc k' /\
       LqrKnotTpl.nth k = LqrKnotTpl.nth k').
Proof.
  intros Hgood. rewrite !operator_shl_good by done. cbn [ostream.text].
  rewrite !release_report. split.
  - intros H.
    do 2 apply string_app_inv_head in H.
    injection H as H.
    apply digits_split in H as [Hx%fmt_d_inj H];
      [|apply all_digits_fmt_d..|reflexivity].
    injection H as H.
    apply digits_split in H as [Hu%fmt_d_inj H];
      [|apply all_digits_fmt_d..|reflexivity].
    injection H as H.
    apply digits_split in H as [Hc%fmt_d_inj H];
      [|apply all_digits_fmt_d..|reflexivity].
    repeat (split; [done|]).
    destruct (0 <? LqrKnotTpl.nth k) eqn:E, (0 <? LqrKnotTpl.nth k') eqn:E'.
    + injection H as H.
      apply digits_split in H as [Hn%fmt_d_inj _];
        [done|apply all_digits_fmt_d..|reflexivity].
    + discriminate H.
    + discriminate H.
    + apply Nat.ltb_ge in E, E'. lia.
  - intros (-> & -> & -> & ->). reflexivity.
Qed.

Lemma release_report_determines_dimensions_witness :
  ostream.text
    (LqrKnotTpl.operator_shl true (fun _ preamble => preamble)
       (stream_with_width "knot: " 12) scenario_knot)
  = ostream.text
      (LqrKnotTpl.operator_shl true (fun _ preamble => preamble)
         (stream_with_width "knot: " 12) unit_knot)
  <-> LqrKnotTpl.nx scenario_knot = LqrKnotTpl.nx unit_knot /\
      LqrKnotTpl.nu scenario_knot = LqrKnotTpl.nu unit_knot /\
      LqrKnotTpl.nc scenario_knot = LqrKnotTpl.nc unit_knot /\
      LqrKnotTpl.nth scenario_knot = LqrKnotTpl.nth unit_knot.
Proof.
  apply (release_report_determines_dimensions (fun _ preamble => preamble)
           (stream_with_width "knot: " 12) scenario_knot unit_knot).
  reflexivity.
Defined.

(** ** The copy constructor of problems *)

(** X11. The copy constructor gives back the value it was given: for a
    problem whose blocks and knots satisfy the invariant of the data model, the
    copy has the same [G0] and [g0] (the blocks the delegated constructor
    shaped from [nc0()] are assigned over), the same stages in the same order,
    hence the same horizon, and the copy compares to the original as the
    original does to itself (lines 227-232). *)
Theorem copy_problem_same_value
    {Scalar : Type} {ops : ScalarOps Scalar} (p : LqrProblemTpl.t Scalar) :
  ManagedMatrix.wf (LqrProblemTpl.G0 p) ->
  ManagedMatrix.wf (LqrProblemTpl.g0 p) ->
  Forall LqrKnotTpl.wf (LqrProblemTpl.stages p) ->
  LqrProblemTpl.copy p = p /\
  LqrProblemTpl.horizon (LqrProblemTpl.copy p) = LqrProblemTpl.horizon p /\
  forall fuel,
    LqrProblemTpl.isApprox fuel (LqrProblemTpl.copy p) p
    = LqrProblemTpl.isApprox fuel p p.
Proof.
  intros HG Hg Hst.
  assert (LqrProblemTpl.copy p = p) as Hcopy.
  { destruct p as [G g st]. unfold LqrProblemTpl.copy, LqrProblemTpl.make.
    simpl in *. rewrite !copy_id by done. f_equal.
    induction Hst as [|k st Hk _ IH]; simpl; [done|].
    by rewrite (knot_copy_id k Hk), IH. }
  rewrite Hcopy. repeat split.
Qed.

Lemma copy_problem_same_value_witness :
  LqrProblemTpl.copy scenario_problem = scenario_problem /\
  LqrProblemTpl.horizon (LqrProblemTpl.copy scenario_problem)
  = LqrProblemTpl.horizon scenario_problem /\
  forall fuel,
    LqrProblemTpl.isApprox fuel (LqrProblemTpl.copy scenario_problem)
      scenario_problem
    = LqrProblemTpl.isApprox fuel scenario_problem scenario_problem.
Proof.
  apply (copy_problem_same_value scenario_problem).
  - apply wf_zeros.
  - apply wf_zeros.
  - unfold scenario_problem, LqrProblemTpl.make. simpl.
    rewrite !(knot_copy_id scenario_knot (wf_make 2 1 0 2 0)).
    repeat constructor; apply wf_make.
Defined.
